(** * FACS video annotator: frame navigation engine and annotation log

    A shallow embedding of [video_player.py] (class [VideoPlayer]) and
    [annotation_manager.py] (class [AnnotationManager]), with the
    properties of the navigation engine and of the annotation log that
    the specification states about them.

    Layout:
    - [PyNum]: the Python numbers the code computes with ([int] as [Z],
      [float] as IEEE binary64 through [SpecFloat]), with the exceptions
      of [int()] and of mixed arithmetic;
    - [Timestamp]: [VideoPlayer.format_timestamp];
    - [Player]: the capture interface of OpenCV, the player record and
      its methods, instrumented with the list of calls made on the
      capture object;
    - [Gop]: a concrete capture (keyframes, dependent frames, corrupt
      frames) on which the methods are run;
    - [PosixPath], [Annotations]: [os.path] on POSIX and the annotation
      manager over a file store;
    - [Session], [Controller]: the rest of the player
      ([get_current_timestamp]), the player under the calls of
      [video_annotation_gui.py] (playback, the navigation bar) and the
      annotation buttons of the application. *)

From Stdlib Require Import ZArith List String Ascii Lia Bool QArith Qround Lqa.
From Stdlib Require Import SpecFloat DecimalString.
From stdpp Require Import base option gmap strings.

Import ListNotations.
#[local] Open Scope Z_scope.

(** ** Python numbers *)

Module PyNum.

(** Exceptions raised by the numeric conversions the code performs. *)
Inductive PyExc : Type :=
| OverflowError
| ValueError.

(** The outcome of an expression that may raise. *)
Inductive Res (A : Type) : Type :=
| Ok (a : A)
| Raise (e : PyExc).
Arguments Ok {A} a.
Arguments Raise {A} e.

Definition res_bind {A B : Type} (r : Res A) (k : A -> Res B) : Res B :=
  match r with
  | Ok a => k a
  | Raise e => Raise e
  end.

Notation "x <-- r ;; k" := (res_bind r (fun x => k))
  (at level 100, r at next level, right associativity).

(** A Python number: an unbounded [int] or a binary64 [float]. *)
Inductive num : Type :=
| PyInt (z : Z)
| PyFloat (f : spec_float).

Definition prec : Z := 53.
Definition emax : Z := 1024.

(** [float(z)] before the overflow check: the nearest binary64 value,
    ties to even. *)
Definition fl (z : Z) : spec_float := binary_normalize prec emax z 0 false.

(** [float(z)]: raises [OverflowError] when [z] is too large. *)
Definition int_to_float (z : Z) : Res spec_float :=
  match fl z with
  | S754_infinity _ => Raise OverflowError
  | f => Ok f
  end.

(** [a / b] on two ints with [b > 0]: the correctly rounded quotient. *)
Definition int_truediv (a b : Z) : spec_float :=
  match a with
  | Z0 => S754_zero false
  | _ =>
      let '(q, e, l) := SFdiv_core_binary prec emax (Z.abs a) 0 b 0 in
      binary_round_aux prec emax (a <? 0) q e l
  end.

(** The real number a float stands for (0 for infinities and NaN, which
    the callers exclude before they use it). *)
Definition SF2Q (f : spec_float) : Q :=
  match f with
  | S754_finite s m e =>
      let z := cond_Zopp s (Zpos m) in
      if 0 <=? e then (z * 2 ^ e) # 1 else z # Z.to_pos (2 ^ (- e))
  | _ => 0%Q
  end.

Definition is_finite (f : spec_float) : bool :=
  match f with
  | S754_zero _ | S754_finite _ _ _ => true
  | _ => false
  end.

(** The integral part of a finite float, as C's conversion of a double
    to an integer computes it: the magnitude shifted, the sign kept. *)
Definition float_trunc (f : spec_float) : Z :=
  match f with
  | S754_finite s m e => cond_Zopp s (Z.shiftl (Zpos m) e)
  | _ => 0
  end.

(** [int(x)]. *)
Definition py_int (x : num) : Res Z :=
  match x with
  | PyInt z => Ok z
  | PyFloat S754_nan => Raise ValueError
  | PyFloat (S754_infinity _) => Raise OverflowError
  | PyFloat f => Ok (float_trunc f)
  end.

(** [x * y]: exact on two ints, binary64 multiplication otherwise, the
    int operand converted first. *)
Definition py_mul (x y : num) : Res num :=
  match x, y with
  | PyInt a, PyInt b => Ok (PyInt (a * b))
  | PyInt a, PyFloat g => f <-- int_to_float a ;; Ok (PyFloat (SFmul prec emax f g))
  | PyFloat f, PyInt b => g <-- int_to_float b ;; Ok (PyFloat (SFmul prec emax f g))
  | PyFloat f, PyFloat g => Ok (PyFloat (SFmul prec emax f g))
  end.

(** [x == 0]. *)
Definition is_zero (x : num) : bool :=
  match x with
  | PyInt z => z =? 0
  | PyFloat (S754_zero _) => true
  | PyFloat _ => false
  end.

(** The numbers that denote a real: every finite float, and every int
    that [float()] accepts. *)
Definition is_real (x : num) : bool :=
  match x with
  | PyInt z => is_finite (fl z)
  | PyFloat f => is_finite f
  end.

(** The numbers on which [int()] does not raise. *)
Definition finite_num (x : num) : bool :=
  match x with
  | PyInt _ => true
  | PyFloat f => is_finite f
  end.

(** The real value of a number. *)
Definition value (x : num) : Q :=
  match x with
  | PyInt z => inject_Z z
  | PyFloat f => SF2Q f
  end.

(** Rounding toward zero of a rational, as the specification words the
    conversion of [skip_time]. *)
Definition round_toward_zero (q : Q) : Z := Z.quot (Qnum q) (Zpos (Qden q)).

(** Rounding to the nearest integer, ties to even. *)
Definition round_half_even (q : Q) : Z :=
  let f := Qfloor q in
  let r := (q - inject_Z f)%Q in
  match (r ?= 1 # 2)%Q with
  | Lt => f
  | Gt => f + 1
  | Eq => if Z.even f then f else f + 1
  end.

End PyNum.

Import PyNum.

(** ** [VideoPlayer.format_timestamp] *)

Module Timestamp.

(** [datetime.timedelta] stores a whole number of microseconds, split
    into days, seconds and microseconds, and refuses more than
    999999999 days on either side. *)
Definition us_per_second : Z := 1000000.
Definition us_per_day : Z := 86400 * us_per_second.
Definition max_days : Z := 999999999.

Definition timedelta_check (us : Z) : Res Z :=
  let days := us / us_per_day in
  if (- max_days <=? days) && (days <=? max_days) then Ok us
  else Raise OverflowError.

(** [timedelta(seconds=x)], as its documentation gives it: an int is
    taken exactly; a float is rounded to the nearest microsecond, ties
    to even; NaN and the infinities are refused. *)
Definition timedelta (x : num) : Res Z :=
  match x with
  | PyInt z => timedelta_check (z * us_per_second)
  | PyFloat S754_nan => Raise ValueError
  | PyFloat (S754_infinity _) => Raise OverflowError
  | PyFloat f =>
      timedelta_check (round_half_even (SF2Q f * inject_Z us_per_second))
  end.

(** [td.total_seconds()]: the microseconds divided by [10**6], a true
    division of two ints. *)
Definition total_seconds (us : Z) : spec_float := int_truediv us us_per_second.

(** [x // w] and [x % w] on a float [x] and a positive int [w], on the
    real values. Python computes them from C's [fmod], which is exact,
    and over the range of [timedelta] (less than [2**47] seconds) the
    subtraction and the division that follow are exact too, so that the
    results are the floor of the quotient and the matching remainder. *)
Definition floordiv (x : Q) (w : Z) : Z := Qfloor (x / inject_Z w).
Definition fmod (x : Q) (w : Z) : Q := (x - inject_Z (w * floordiv x w))%Q.

(** The decimal digits of a natural number. *)
Definition decimal (n : Z) : string :=
  NilZero.string_of_uint (N.to_uint (Z.to_N n)).

Fixpoint zeros (n : nat) : string :=
  match n with
  | O => EmptyString
  | S k => String "0" (zeros k)
  end.

(** Zero padding on the left up to [width] characters. *)
Definition zfill (width : nat) (s : string) : string :=
  (zeros (width - String.length s) ++ s)%string.

(** [f"{z:02d}"]: the sign, then the digits padded with zeros so that
    the whole takes at least two characters. *)
Definition format_02d (z : Z) : string :=
  if z <? 0 then String "-" (zfill 1 (decimal (- z)))
  else zfill 2 (decimal z).

(** [f"{x:06.3f}"] for [x >= 0]: the value rounded to the nearest
    multiple of [0.001] (the conversion is correctly rounded, an exact
    tie goes to the even digit), printed with three decimals and padded
    with zeros to six characters. *)
Definition format_06_3f (x : Q) : string :=
  let n := round_half_even (x * inject_Z 1000) in
  zfill 6 (decimal (n / 1000) ++ "." ++ zfill 3 (decimal (n mod 1000)))%string.

(** [format_timestamp(seconds)]. *)
Definition format_timestamp (seconds : num) : Res string :=
  td <-- timedelta seconds ;;
  let hours := floordiv (SF2Q (total_seconds td)) 3600 in
  let minutes := floordiv (fmod (SF2Q (total_seconds td)) 3600) 60 in
  let secs := fmod (SF2Q (total_seconds td)) 60 in
  Ok (format_02d hours ++ ":" ++ format_02d minutes ++ ":" ++ format_06_3f secs)%string.








Definition f59_9996 : spec_float := S754_finite false 8444193006324338 (-47).

End Timestamp.

Import Timestamp.

(** ** The navigation engine *)

Module Player.

(** The two ways [load_video] opens a file: [cv2.CAP_FFMPEG], and the
    default backend of [cv2.VideoCapture(file_path)]. *)
Inductive Backend : Type :=
| CAP_FFMPEG
| CAP_ANY.

(** The calls the engine makes on OpenCV, in the order it makes them. *)
Inductive Call : Type :=
| CallOpen (file_path : string) (backend : Backend)
| CallRelease
| CallSet (pos_frames : Z)
| CallRead.

(** What the engine uses of [cv2.VideoCapture]. [C] is the state of a
    capture object; [read] and [set_pos_frames] return the state they
    leave it in. The properties are the values the code reads after its
    own [int(...)]. *)
Class Capture (Image C : Type) : Type := {
  VideoCapture : string -> Backend -> C;
  isOpened : C -> bool;
  read : C -> bool * option Image * C;
  set_pos_frames : Z -> C -> C;
  get_frame_count : C -> Z;
  get_fps : C -> spec_float;
  get_frame_width : C -> Z;
  get_frame_height : C -> Z
}.

Section Engine.

Context {Image C : Type} `{!Capture Image C}.

Record VideoPlayer : Type := {
  video_capture : option C;
  video_path : option string;
  current_frame : Z;
  total_frames : Z;
  fps : num;
  frame_width : Z;
  frame_height : Z;
  last_valid_frame : option Image;
  last_read_position : Z
}.

(** [VideoPlayer()]. *)
Definition init : VideoPlayer :=
  {| video_capture := None; video_path := None; current_frame := 0;
     total_frames := 0; fps := PyInt 0; frame_width := 0; frame_height := 0;
     last_valid_frame := None; last_read_position := -1 |}.

Definition set_video_capture (c : option C) (p : VideoPlayer) : VideoPlayer :=
  {| video_capture := c; video_path := video_path p;
     current_frame := current_frame p; total_frames := total_frames p;
     fps := fps p; frame_width := frame_width p;
     frame_height := frame_height p;
     last_valid_frame := last_valid_frame p;
     last_read_position := last_read_position p |}.

Definition set_current_frame (n : Z) (p : VideoPlayer) : VideoPlayer :=
  {| video_capture := video_capture p; video_path := video_path p;
     current_frame := n; total_frames := total_frames p;
     fps := fps p; frame_width := frame_width p;
     frame_height := frame_height p;
     last_valid_frame := last_valid_frame p;
     last_read_position := last_read_position p |}.

Definition set_cache (frame : option Image) (pos : Z) (p : VideoPlayer)
  : VideoPlayer :=
  {| video_capture := video_capture p; video_path := video_path p;
     current_frame := current_frame p; total_frames := total_frames p;
     fps := fps p; frame_width := frame_width p;
     frame_height := frame_height p;
     last_valid_frame := frame;
     last_read_position := pos |}.

(** [load_video(file_path)]: the pair returned, the player afterwards
    and the calls made. *)
Definition load_video (file_path : string) (p : VideoPlayer)
  : (bool * option string) * VideoPlayer * list Call :=
  let released :=
    match video_capture p with
    | Some _ => [CallRelease]
    | None => []
    end in
  let first := VideoCapture file_path CAP_FFMPEG in
  let '(c, opened) :=
    if negb (isOpened first)
    then (VideoCapture file_path CAP_ANY,
          [CallOpen file_path CAP_FFMPEG; CallOpen file_path CAP_ANY])
    else (first, [CallOpen file_path CAP_FFMPEG]) in
  if negb (isOpened c)
  then ((false, Some "Failed to open video file"%string),
        set_video_capture (Some c) p, released ++ opened)
  else ((true, None),
        {| video_capture := Some c; video_path := Some file_path;
           current_frame := 0; total_frames := get_frame_count c;
           fps := PyFloat (get_fps c); frame_width := get_frame_width c;
           frame_height := get_frame_height c;
           last_valid_frame := None; last_read_position := -1 |},
        released ++ opened).

(** The loop of [_seek_and_read]: at most [n] reads, stopped by the
    first one that fails; [last] is what [ret, frame] hold before. *)
Fixpoint read_forward (n : nat) (last : bool * option Image) (c : C)
  : bool * option Image * C * list Call :=
  match n with
  | O => (last, c, [])
  | S k =>
      let '(ret, frame, c') := read c in
      if negb ret then (ret, frame, c', [CallRead])
      else
        let '(r, c'', calls) := read_forward k (ret, frame) c' in
        (r, c'', CallRead :: calls)
  end.

(** [_seek_and_read()], on the capture [get_frame] found present. *)
Definition _seek_and_read (current_frame : Z) (c : C)
  : bool * option Image * C * list Call :=
  let c1 := set_pos_frames current_frame c in
  let '(ret, frame, c2) := read c1 in
  if ret then (ret, frame, c2, [CallSet current_frame; CallRead])
  else
    let keyframe_interval := 30 in
    let seek_back := Z.min current_frame keyframe_interval in
    if 0 <? seek_back then
      let start_frame := current_frame - seek_back in
      let c3 := set_pos_frames start_frame c2 in
      let '(ret', frame', c4, reads) :=
        read_forward (Z.to_nat (seek_back + 1)) (ret, frame) c3 in
      let calls :=
        [CallSet current_frame; CallRead; CallSet start_frame] ++ reads in
      if ret' then (ret', frame', c4, calls)
      else (false, None, c4, calls)
    else (false, None, c2, [CallSet current_frame; CallRead]).

(** The results of [n] reads in a row, whatever they return, and the
    capture after them. *)
Fixpoint run_reads (n : nat) (c : C) : list (bool * option Image) * C :=
  match n with
  | O => ([], c)
  | S k =>
      let '(ret, frame, c') := read c in
      let '(l, c'') := run_reads k c' in
      ((ret, frame) :: l, c'')
  end.

(** The number of reads that succeed before the first that fails. *)
Fixpoint leading_ok (l : list (bool * option Image)) : nat :=
  match l with
  | (true, _) :: r => S (leading_ok r)
  | _ => O
  end.

(** The fresh decode of [get_frame]: the plain read or the seek. *)
Definition decode (p : VideoPlayer) (c : C)
  : bool * option Image * C * list Call :=
  if Z.abs (current_frame p - last_read_position p) =? 1 then
    if last_read_position p <? current_frame p then
      let '(ret, frame, c') := read c in (ret, frame, c', [CallRead])
    else _seek_and_read (current_frame p) c
  else _seek_and_read (current_frame p) c.

Definition is_None {A : Type} (o : option A) : bool :=
  match o with
  | None => true
  | Some _ => false
  end.

(** [get_frame()]: the triple returned, the player afterwards and the
    calls made. *)
Definition get_frame (p : VideoPlayer)
  : (bool * option Image * bool) * VideoPlayer * list Call :=
  match video_capture p with
  | None => ((false, None, false), p, [])
  | Some c =>
      let '(ret, frame, c', calls) := decode p c in
      let p' := set_video_capture (Some c') p in
      if negb ret || is_None frame then
        match last_valid_frame p' with
        | Some cached => ((true, Some cached, true), p', calls)
        | None => ((false, None, false), p', calls)
        end
      else ((true, frame, false), set_cache frame (current_frame p') p', calls)
  end.

(** [next_frame()], [previous_frame()]. *)
Definition next_frame (p : VideoPlayer) : bool * VideoPlayer :=
  if current_frame p <? total_frames p - 1
  then (true, set_current_frame (current_frame p + 1) p)
  else (false, p).

Definition previous_frame (p : VideoPlayer) : bool * VideoPlayer :=
  if 0 <? current_frame p
  then (true, set_current_frame (current_frame p - 1) p)
  else (false, p).

(** [skip_frames(frame_count)]. *)
Definition skip_frames (frame_count : Z) (p : VideoPlayer) : Z * VideoPlayer :=
  let new_frame := current_frame p + frame_count in
  let new_frame := Z.max 0 (Z.min new_frame (total_frames p - 1)) in
  let old_frame := current_frame p in
  (new_frame - old_frame, set_current_frame new_frame p).

(** [skip_time(seconds)]: an exception of [int(seconds * self.fps)]
    leaves the player as it was. *)
Definition skip_time (seconds : num) (p : VideoPlayer) : Res Z * VideoPlayer :=
  match (x <-- py_mul seconds (fps p) ;; py_int x) with
  | Ok frames_to_skip =>
      let '(n, p') := skip_frames frames_to_skip p in (Ok n, p')
  | Raise e => (Raise e, p)
  end.

(** The position is in range: within [[0, total_frames - 1]], and 0
    when there is no frame. *)
Definition frame_invariant (p : VideoPlayer) : Prop :=
  if 0 <? total_frames p
  then 0 <= current_frame p <= total_frames p - 1
  else current_frame p = 0.

(** The clamp of the specification: [x] brought into [[lo, hi]]. *)
Definition clamp (lo hi x : Z) : Z :=
  if x <? lo then lo else if hi <? x then hi else x.

(** The navigation operations, and the player each one leaves. *)
Inductive NavOp : Type :=
| StepForward
| StepBackward
| SkipByFrames (delta : Z)
| SkipByTime (seconds : num).

Definition navigate (op : NavOp) (p : VideoPlayer) : VideoPlayer :=
  match op with
  | StepForward => snd (next_frame p)
  | StepBackward => snd (previous_frame p)
  | SkipByFrames delta => snd (skip_frames delta p)
  | SkipByTime seconds => snd (skip_time seconds p)
  end.

(** [is_loaded()], [release()]. *)
Definition is_loaded (p : VideoPlayer) : bool :=
  negb (is_None (video_capture p)).

Definition release (p : VideoPlayer) : VideoPlayer * list Call :=
  match video_capture p with
  | Some _ => (set_video_capture None p, [CallRelease])
  | None => (p, [])
  end.

End Engine.

Arguments VideoPlayer Image C : clear implicits.

End Player.

Import Player.

(** ** A concrete capture

    A stream of frames in which a frame is a keyframe or depends on the
    frame before it, and may be corrupt. A dependent frame decodes only
    when the frame before it was just decoded; a seek drops that
    reference, so that a direct seek to a dependent frame fails and the
    keyframe recovery of [_seek_and_read] has something to recover. *)

Module Gop.

Record Packet : Type := {
  keyframe : bool;
  payload : option nat
}.

Record GopCap : Type := {
  opened : bool;
  packets : list Packet;
  pos : Z;
  have_ref : bool
}.

Definition key (img : nat) : Packet := {| keyframe := true; payload := Some img |}.
Definition dep (img : nat) : Packet := {| keyframe := false; payload := Some img |}.
Definition corrupt : Packet := {| keyframe := false; payload := None |}.

Definition closed : GopCap :=
  {| opened := false; packets := []; pos := 0; have_ref := false |}.

Definition stream (l : list Packet) : GopCap :=
  {| opened := true; packets := l; pos := 0; have_ref := false |}.

Definition gop_read (c : GopCap) : bool * option nat * GopCap :=
  if negb (opened c) || (pos c <? 0) then (false, None, c)
  else
    match nth_error (packets c) (Z.to_nat (pos c)) with
    | None => (false, None, c)
    | Some pk =>
        match payload pk with
        | Some img =>
            if keyframe pk || have_ref c
            then (true, Some img,
                  {| opened := true; packets := packets c;
                     pos := pos c + 1; have_ref := true |})
            else (false, None,
                  {| opened := true; packets := packets c;
                     pos := pos c + 1; have_ref := false |})
        | None =>
            (false, None,
             {| opened := true; packets := packets c;
                pos := pos c + 1; have_ref := false |})
        end
    end.

Definition gop_set (n : Z) (c : GopCap) : GopCap :=
  {| opened := opened c; packets := packets c; pos := n; have_ref := false |}.

(** The files of the examples: [clip.mp4] opens with the first backend,
    [legacy.avi] only with the fallback, nothing else opens. *)
Definition clip : list Packet := [key 0; dep 1; dep 2; key 3; dep 4].

Definition gop_open (file_path : string) (backend : Backend) : GopCap :=
  if String.eqb file_path "clip.mp4" then stream clip
  else if String.eqb file_path "legacy.avi" then
    match backend with
    | CAP_FFMPEG => closed
    | CAP_ANY => stream clip
    end
  else closed.

#[export] Instance gop_capture : Capture nat GopCap := {|
  VideoCapture := gop_open;
  isOpened := opened;
  read := gop_read;
  set_pos_frames := gop_set;
  get_frame_count := fun c => Z.of_nat (List.length (packets c));
  get_fps := fun _ => fl 25;
  get_frame_width := fun _ => 640;
  get_frame_height := fun _ => 480
|}.

(** A player on a stream, as [load_video] leaves it, moved to a frame
    and with a given cache. *)
Definition player_at (l : list Packet) (frame : Z) (cache : option nat)
  (last_read : Z) : VideoPlayer nat GopCap :=
  {| video_capture := Some (stream l); video_path := Some "clip.mp4"%string;
     current_frame := frame; total_frames := Z.of_nat (List.length l);
     fps := PyFloat (fl 25); frame_width := 640; frame_height := 480;
     last_valid_frame := cache; last_read_position := last_read |}.

(** A stream whose second frame is corrupt: the direct seek to frame 2
    fails, the recovery decodes frame 0 and then stops at frame 1. *)
Definition damaged : list Packet := [key 0; corrupt; dep 2].

(** A player with a given position, frame count and frame rate, on a
    capture that is open. *)
Definition player_with (frame total : Z) (rate : num) : VideoPlayer nat GopCap :=
  {| video_capture := Some (stream clip); video_path := Some "clip.mp4"%string;
     current_frame := frame; total_frames := total;
     fps := rate; frame_width := 640; frame_height := 480;
     last_valid_frame := None; last_read_position := -1 |}.

End Gop.

Import Gop.

(** ** [os.path] on POSIX *)

Module PosixPath.

#[local] Open Scope string_scope.

Definition sep : ascii := "/"%char.

Definition is_sep (c : ascii) : bool := Ascii.eqb c sep.

Fixpoint has_sep (s : string) : bool :=
  match s with
  | EmptyString => false
  | String c r => is_sep c || has_sep r
  end.

Fixpoint all_sep (s : string) : bool :=
  match s with
  | EmptyString => true
  | String c r => is_sep c && all_sep r
  end.

(** [s.rstrip('/')]. *)
Fixpoint rstrip_sep (s : string) : string :=
  match s with
  | EmptyString => EmptyString
  | String c r =>
      match rstrip_sep r with
      | EmptyString => if is_sep c then EmptyString else String c EmptyString
      | r' => String c r'
      end
  end.

(** [(p[:i], p[i:])] for [i = p.rfind('/') + 1]. *)
Fixpoint cut_last_sep (p : string) : string * string :=
  match p with
  | EmptyString => (EmptyString, EmptyString)
  | String c r =>
      if has_sep r then
        let '(h, t) := cut_last_sep r in (String c h, t)
      else if is_sep c then (String c EmptyString, r)
      else (EmptyString, String c r)
  end.

Definition basename (p : string) : string := snd (cut_last_sep p).

Definition dirname (p : string) : string :=
  let head := fst (cut_last_sep p) in
  if negb (String.eqb head EmptyString) && negb (all_sep head)
  then rstrip_sep head else head.

Definition isabs (p : string) : bool := String.prefix "/" p.

Definition endswith_sep (p : string) : bool :=
  match String.get (String.length p - 1) p with
  | Some c => is_sep c
  | None => false
  end.

(** [join(a, b)]. *)
Definition join (a b : string) : string :=
  if isabs b then b
  else if String.eqb a EmptyString || endswith_sep a then a ++ b
  else a ++ "/" ++ b.

(** [join] over the elements of a non-empty list. *)
Definition join_all (l : list string) : string :=
  match l with
  | [] => EmptyString
  | a :: r => fold_left join r a
  end.

(** [(b[:d], b[d:])] for [d = b.rfind('.')], when [b] has a dot. *)
Fixpoint cut_last_dot (b : string) : option (string * string) :=
  match b with
  | EmptyString => None
  | String c r =>
      match cut_last_dot r with
      | Some (h, t) => Some (String c h, t)
      | None =>
          if Ascii.eqb c "."%char then Some (EmptyString, String c r) else None
      end
  end.

Fixpoint all_dots (s : string) : bool :=
  match s with
  | EmptyString => true
  | String c r => Ascii.eqb c "."%char && all_dots r
  end.

(** [splitext(p)]: the extension starts at the last dot of the last
    component, leading dots of that component apart. *)
Definition splitext (p : string) : string * string :=
  let '(head, tail) := cut_last_sep p in
  match cut_last_dot tail with
  | Some (stem, ext) =>
      if all_dots stem then (p, EmptyString) else (head ++ stem, ext)
  | None => (p, EmptyString)
  end.

(** [p.split('/')]. *)
Fixpoint split_sep (p : string) : list string :=
  match p with
  | EmptyString => [EmptyString]
  | String c r =>
      if is_sep c then EmptyString :: split_sep r
      else
        match split_sep r with
        | [] => [String c EmptyString]
        | x :: l => String c x :: l
        end
  end.

(** The loop of [normpath] over the components. *)
Fixpoint norm_comps (initial_slashes : nat) (new_comps : list string)
  (comps : list string) : list string :=
  match comps with
  | [] => new_comps
  | comp :: rest =>
      if String.eqb comp EmptyString || String.eqb comp "." then
        norm_comps initial_slashes new_comps rest
      else if negb (String.eqb comp "..")
              || (Nat.eqb initial_slashes 0
                  && Nat.eqb (List.length new_comps) 0)
              || (negb (Nat.eqb (List.length new_comps) 0)
                  && String.eqb (List.last new_comps EmptyString) "..")
      then norm_comps initial_slashes (new_comps ++ [comp])%list rest
      else norm_comps initial_slashes (removelast new_comps) rest
  end.

Definition normpath (path : string) : string :=
  if String.eqb path EmptyString then "."
  else
    let initial_slashes :=
      if String.prefix "/" path then
        if String.prefix "//" path && negb (String.prefix "///" path)
        then 2%nat else 1%nat
      else 0%nat in
    let comps := norm_comps initial_slashes [] (split_sep path) in
    let path := String.concat "/" comps in
    let path :=
      match initial_slashes with
      | O => path
      | S O => "/" ++ path
      | _ => "//" ++ path
      end in
    if String.eqb path EmptyString then "." else path.

(** [abspath(path)] in the working directory [cwd]. *)
Definition abspath (cwd path : string) : string :=
  normpath (if isabs path then path else join cwd path).

Definition nonempty_comps (p : string) : list string :=
  filter (fun x => negb (String.eqb x EmptyString)) (split_sep p).

(** The length of the common prefix of two lists of components. *)
Fixpoint common_prefix (a b : list string) : nat :=
  match a, b with
  | x :: a', y :: b' => if String.eqb x y then S (common_prefix a' b') else O
  | _, _ => O
  end.

(** [relpath(path, start)] for a non-empty [path]. *)
Definition relpath (cwd path start : string) : string :=
  let start_list := nonempty_comps (abspath cwd start) in
  let path_list := nonempty_comps (abspath cwd path) in
  let i := common_prefix start_list path_list in
  let rel_list :=
    (repeat ".." (List.length start_list - i) ++ skipn i path_list)%list in
  match rel_list with
  | [] => "."
  | _ => join_all rel_list
  end.

(** A path lies under a directory when the components of the directory
    start the components of the path. *)
Fixpoint comps_prefix (d p : list string) : bool :=
  match d, p with
  | [], _ => true
  | x :: d', y :: p' => String.eqb x y && comps_prefix d' p'
  | _ :: _, [] => false
  end.

Definition lies_under (path dir : string) : bool :=
  comps_prefix (nonempty_comps dir) (nonempty_comps path).

End PosixPath.

(** ** The annotation log *)

Module Annotations.

#[local] Open Scope string_scope.

(** What the process sees of its environment: the value of
    [os.path.expanduser("~")] and the working directory. *)
Record Env : Type := {
  home_dir : string;
  cwd : string
}.

(** The file store: the text of each file, and the paths that [open]
    refuses, each with the text of the exception it raises. *)
Record FileSystem : Type := {
  files : gmap string string;
  refused : gmap string string
}.

Record AnnotationManager : Type := {
  start_timestamp : option num;
  annotation_history : list string;
  annotation_dir : option string
}.

(** [AnnotationManager()]. *)
Definition init : AnnotationManager :=
  {| start_timestamp := None; annotation_history := [];
     annotation_dir := None |}.

Definition set_start (timestamp : num) (m : AnnotationManager)
  : AnnotationManager :=
  {| start_timestamp := Some timestamp;
     annotation_history := annotation_history m;
     annotation_dir := annotation_dir m |}.

Definition clear_start (m : AnnotationManager) : AnnotationManager :=
  {| start_timestamp := None;
     annotation_history := annotation_history m;
     annotation_dir := annotation_dir m |}.

Definition has_start (m : AnnotationManager) : bool :=
  match start_timestamp m with
  | Some _ => true
  | None => false
  end.

(** [x in l] on strings. *)
Definition mem (x : string) (l : list string) : bool :=
  existsb (String.eqb x) l.

(** [add_to_history(annotation)]. *)
Definition add_to_history (annotation : string) (m : AnnotationManager)
  : AnnotationManager :=
  if negb (String.eqb annotation EmptyString) && negb (mem annotation (annotation_history m))
  then {| start_timestamp := start_timestamp m;
          annotation_history := (annotation_history m ++ [annotation])%list;
          annotation_dir := annotation_dir m |}
  else m.

Definition set_directory (directory : option string) (m : AnnotationManager)
  : AnnotationManager :=
  {| start_timestamp := start_timestamp m;
     annotation_history := annotation_history m;
     annotation_dir := directory |}.

(** The truth value of an optional string: [None] and the empty string are false. *)
Definition truthy (s : option string) : option string :=
  match s with
  | Some EmptyString | None => None
  | Some x => Some x
  end.

Definition tab : string := String (ascii_of_nat 9) EmptyString.
Definition newline : string := String (ascii_of_nat 10) EmptyString.

(** The line of one annotation. *)
Definition annotation_line (video_path_str start_time_str end_time_str
  annotation_text : string) : string :=
  video_path_str ++ tab ++ start_time_str ++ tab ++ end_time_str ++ tab
  ++ annotation_text ++ newline.

(** [open(path, 'a')] followed by [write(text)]. *)
Definition append_text (path text : string) (fs : FileSystem)
  : string + FileSystem :=
  match refused fs !! path with
  | Some msg => inl msg
  | None =>
      inr {| files := <[path := default EmptyString (files fs !! path) ++ text]> (files fs);
             refused := refused fs |}
  end.

(** The path written in the line: relative to the home directory when
    the absolute path starts with the home directory as a string. *)
Definition display_path (env : Env) (video_path : string) : string :=
  let abs_video_path := PosixPath.abspath (cwd env) video_path in
  if String.prefix (home_dir env) abs_video_path
  then PosixPath.relpath (cwd env) abs_video_path (home_dir env)
  else abs_video_path.

(** The file of a video's annotations. *)
Definition annotation_file (m : AnnotationManager) (video_path : string)
  : string :=
  let annot_dir :=
    match truthy (annotation_dir m) with
    | Some d => d
    | None => PosixPath.dirname video_path
    end in
  let video_name := fst (PosixPath.splitext (PosixPath.basename video_path)) in
  PosixPath.join annot_dir (video_name ++ "_annotations.txt").

(** [save_annotation(video_path, start_time_str, end_time_str,
    annotation_text)]: the triple returned and the file store
    afterwards. *)
Definition save_annotation (env : Env) (m : AnnotationManager)
  (video_path : option string)
  (start_time_str end_time_str annotation_text : string) (fs : FileSystem)
  : (bool * option string * option string) * FileSystem :=
  match truthy video_path with
  | None => ((false, None, Some "No video loaded"), fs)
  | Some video_path =>
      let file := annotation_file m video_path in
      let video_path_str := display_path env video_path in
      match append_text file
              (annotation_line video_path_str start_time_str end_time_str
                 annotation_text) fs with
      | inr fs' => ((true, Some file, None), fs')
      | inl msg => ((false, None, Some msg), fs)
      end
  end.

(** The environment and the file store of the example: the home
    directory [/home/bob], and no file yet. *)
Definition bob : Env := {| home_dir := "/home/bob"; cwd := "/tmp" |}.

Definition no_files : FileSystem := {| files := ∅; refused := ∅ |}.

End Annotations.


(** ** The rest of the player, and the player under its callers *)

Module Session.

(** The outcome of an expression that may also divide by zero. *)
Inductive DivRes (A : Type) : Type :=
| DivOk (a : A)
| DivRaise (e : PyExc)
| ZeroDivisionError.
Arguments DivOk {A} a.
Arguments DivRaise {A} e.
Arguments ZeroDivisionError {A}.

Definition of_res {A : Type} (r : Res A) : DivRes A :=
  match r with
  | Ok a => DivOk a
  | Raise e => DivRaise e
  end.

(** [x > 0]. *)
Definition py_gt0 (x : num) : bool :=
  match x with
  | PyInt z => 0 <? z
  | PyFloat f => SFltb (S754_zero false) f
  end.

(** [float(...)] of a quotient: an infinity is an [OverflowError]. *)
Definition finite_or_overflow (f : spec_float) : DivRes num :=
  match f with
  | S754_infinity _ => DivRaise OverflowError
  | _ => DivOk (PyFloat f)
  end.

Definition is_float_zero (f : spec_float) : bool :=
  match f with
  | S754_zero _ => true
  | _ => false
  end.

(** [x / y]: the correctly rounded quotient of two ints, the binary64
    division otherwise, the int operand converted first; a zero divisor
    raises. *)
Definition py_truediv (x y : num) : DivRes num :=
  match x, y with
  | PyInt a, PyInt b =>
      if b =? 0 then ZeroDivisionError
      else if a =? 0 then DivOk (PyFloat (S754_zero (b <? 0)))
      else finite_or_overflow
             (int_truediv (if b <? 0 then - a else a) (Z.abs b))
  | PyInt a, PyFloat g =>
      match int_to_float a with
      | Raise e => DivRaise e
      | Ok f =>
          if is_float_zero g then ZeroDivisionError
          else DivOk (PyFloat (SFdiv prec emax f g))
      end
  | PyFloat f, PyInt b =>
      match int_to_float b with
      | Raise e => DivRaise e
      | Ok g =>
          if is_float_zero g then ZeroDivisionError
          else DivOk (PyFloat (SFdiv prec emax f g))
      end
  | PyFloat f, PyFloat g =>
      if is_float_zero g then ZeroDivisionError
      else DivOk (PyFloat (SFdiv prec emax f g))
  end.

(** [x < y]: ints and floats are compared by their exact values; a NaN
    is below nothing and nothing is below it. *)
Definition py_lt (x y : num) : bool :=
  match x, y with
  | PyInt a, PyInt b => a <? b
  | PyFloat f, PyFloat g => SFltb f g
  | PyInt a, PyFloat g =>
      match g with
      | S754_nan => false
      | S754_infinity s => negb s
      | _ => match (inject_Z a ?= SF2Q g)%Q with Lt => true | _ => false end
      end
  | PyFloat f, PyInt b =>
      match f with
      | S754_nan => false
      | S754_infinity s => s
      | _ => match (SF2Q f ?= inject_Z b)%Q with Lt => true | _ => false end
      end
  end.

(** The sign bit of a number, [None] for a NaN. *)
Definition sign_of (f : spec_float) : option bool :=
  match f with
  | S754_zero s | S754_infinity s | S754_finite s _ _ => Some s
  | S754_nan => None
  end.

(** A number that is not below zero: an int from 0 on, a float whose
    sign bit is clear. *)
Definition nonneg_num (x : num) : Prop :=
  match x with
  | PyInt z => 0 <= z
  | PyFloat f => sign_of f = Some false
  end.

(** A number that is not above zero: an int up to 0, a float whose sign
    bit is set. *)
Definition nonpos_num (x : num) : Prop :=
  match x with
  | PyInt z => z <= 0
  | PyFloat f => sign_of f = Some true
  end.

Section Player.

Context {Image C : Type} `{!Capture Image C}.

Implicit Types (p : VideoPlayer Image C).

(** [get_current_timestamp()]. *)
Definition get_current_timestamp p : DivRes num :=
  if py_gt0 (fps p) then py_truediv (PyInt (current_frame p)) (fps p)
  else DivOk (PyInt 0).

(** A position that fits a frame count: within [[0, total - 1]], and 0
    when there is no frame. *)
Definition position_ok (total x : Z) : Prop :=
  if 0 <? total then 0 <= x <= total - 1 else x = 0.

(** The cache goes with the position it was filled at: no frame and
    [-1], or a frame and a position that fits. *)
Definition cache_invariant p : Prop :=
  match last_valid_frame p with
  | Some _ => position_ok (total_frames p) (last_read_position p)
  | None => last_read_position p = -1
  end.

(** The position that a click or a drag at [x] on a navigation bar
    [scale_width] wide selects, for [scale_width > 0]:
    [int((x / scale_width) * total_frames)], clamped. *)
Definition nav_scale_frame (x scale_width : Z) p : Res Z :=
  match int_truediv x scale_width with
  | S754_infinity _ => Raise OverflowError
  | q =>
      frame_num <-- (y <-- py_mul (PyFloat q) (PyInt (total_frames p)) ;;
                     py_int y) ;;
      Ok (Z.max 0 (Z.min frame_num (total_frames p - 1)))
  end.

(** What [on_nav_scale_click] and [on_nav_scale_drag] do to the
    position of a loaded player: nothing when the bar has no width or
    the computation raises, the assignment
    [self.player.current_frame = frame_num] otherwise. *)
Definition nav_scale_seek (x scale_width : Z) p : VideoPlayer Image C :=
  if negb (is_loaded p) then p
  else if 0 <? scale_width then
    match nav_scale_frame x scale_width p with
    | Ok frame_num => set_current_frame frame_num p
    | Raise _ => p
    end
  else p.

(** One firing of [play_video] while playing, on the player:
    [next_frame()], and when it moved, the [get_frame()] that
    [display_frame] makes on a loaded player. The flag tells whether
    playback goes on. *)
Definition play_tick p : bool * VideoPlayer Image C * list Call :=
  let '(moved, p1) := next_frame p in
  if moved then
    if is_loaded p1 then
      let '(_, p2, calls) := get_frame p1 in (true, p2, calls)
    else (true, p1, [])
  else (false, p1, []).

(** [n] firings in a row, stopped by the first that does not move. *)
Fixpoint play (n : nat) p : VideoPlayer Image C * list Call :=
  match n with
  | O => (p, [])
  | S k =>
      let '(moved, p1, calls) := play_tick p in
      if moved then
        let '(p2, calls') := play k p1 in (p2, calls ++ calls')
      else (p1, calls)
  end.

(** The frames that [get_frame] accepts from a read. *)
Definition decoded (r : bool * option Image) : bool :=
  fst r && negb (is_None (snd r)).

(** Several skips in a row: the deltas returned, and the player. *)
Fixpoint skip_all (deltas : list Z) p : list Z * VideoPlayer Image C :=
  match deltas with
  | [] => ([], p)
  | d :: rest =>
      let '(n, p1) := skip_frames d p in
      let '(ns, p2) := skip_all rest p1 in
      (n :: ns, p2)
  end.

(** The operations that change a player, as its callers issue them. *)
Inductive Op : Type :=
| OpLoad (file_path : string)
| OpGetFrame
| OpNavigate (nav : NavOp)
| OpNavScale (x scale_width : Z)
| OpRelease.

Definition apply_op (o : Op) p : VideoPlayer Image C :=
  match o with
  | OpLoad file_path => snd (fst (load_video file_path p))
  | OpGetFrame => snd (fst (get_frame p))
  | OpNavigate nav => navigate nav p
  | OpNavScale x scale_width => nav_scale_seek x scale_width p
  | OpRelease => fst (release p)
  end.

Definition run_ops (ops : list Op) p : VideoPlayer Image C :=
  fold_left (fun q o => apply_op o q) ops p.

End Player.

End Session.

Import Session.

(** ** The annotation log over several calls, and under its caller *)

Module Controller.

Import Annotations.

#[local] Open Scope string_scope.

(** [add_to_history] on each text of a list, in order. *)
Definition record_all (texts : list string) (m : AnnotationManager)
  : AnnotationManager :=
  fold_left (fun m' t => add_to_history t m') texts m.

(** Several annotations of one video saved in a row: start, end and
    text of each; the results, and the file store afterwards. *)
Fixpoint save_all (env : Env) (m : AnnotationManager)
  (video_path : option string) (entries : list (string * string * string))
  (fs : FileSystem)
  : list (bool * option string * option string) * FileSystem :=
  match entries with
  | [] => ([], fs)
  | (start_str, end_str, text) :: rest =>
      let '(r, fs1) := save_annotation env m video_path start_str end_str text fs in
      let '(rs, fs2) := save_all env m video_path rest fs1 in
      (r :: rs, fs2)
  end.

(** The message boxes and the status line of the application. *)
Inductive MsgKind : Type :=
| Warning
| Error
| Info
| Status.

Section App.

Context {Image C : Type} `{!Capture Image C}.

(** The part of [VideoAnnotationApp] that the annotation buttons use. *)
Record App : Type := {
  player : VideoPlayer Image C;
  annotation_mgr : AnnotationManager
}.

Definition with_mgr (m : AnnotationManager) (a : App) : App :=
  {| player := player a; annotation_mgr := m |}.

(** [mark_start()]: what is shown (or raised), and the application
    afterwards. The start is stored before its text is formatted. *)
Definition mark_start (a : App) : DivRes (MsgKind * string) * App :=
  if negb (is_loaded (player a))
  then (DivOk (Warning, "Please load a video first"), a)
  else
    match get_current_timestamp (player a) with
    | DivOk timestamp =>
        let a' := with_mgr (set_start timestamp (annotation_mgr a)) a in
        match format_timestamp timestamp with
        | Ok timestamp_str =>
            (DivOk (Status, "Start marked at " ++ timestamp_str), a')
        | Raise e => (DivRaise e, a')
        end
    | DivRaise e => (DivRaise e, a)
    | ZeroDivisionError => (ZeroDivisionError, a)
    end.

(** [clear_markers()]. *)
Definition clear_markers (a : App) : App :=
  with_mgr (clear_start (annotation_mgr a)) a.

(** [mark_end_and_save()], [annotation_text] being the text of the
    entry after [strip()]: what is shown (or raised), the application
    and the file store afterwards. *)
Definition mark_end_and_save (env : Env) (annotation_text : string)
  (a : App) (fs : FileSystem)
  : DivRes (MsgKind * string) * App * FileSystem :=
  if negb (is_loaded (player a))
  then (DivOk (Warning, "Please load a video first"), a, fs)
  else
    match start_timestamp (annotation_mgr a) with
    | None => (DivOk (Warning, "Please mark start timestamp first"), a, fs)
    | Some start_timestamp =>
        if String.eqb annotation_text EmptyString
        then (DivOk (Warning, "Please enter an annotation"), a, fs)
        else
          match get_current_timestamp (player a) with
          | DivRaise e => (DivRaise e, a, fs)
          | ZeroDivisionError => (ZeroDivisionError, a, fs)
          | DivOk end_timestamp =>
              if py_lt end_timestamp start_timestamp
              then (DivOk (Warning,
                           "End timestamp must be after start timestamp"),
                    a, fs)
              else
                match format_timestamp start_timestamp with
                | Raise e => (DivRaise e, a, fs)
                | Ok start_str =>
                    match format_timestamp end_timestamp with
                    | Raise e => (DivRaise e, a, fs)
                    | Ok end_str =>
                        match save_annotation env (annotation_mgr a)
                                (video_path (player a)) start_str end_str
                                annotation_text fs with
                        | ((true, Some file_path, _), fs') =>
                            (DivOk (Info, "Annotation saved to:" ++ newline
                                          ++ file_path),
                             with_mgr (add_to_history annotation_text
                                         (annotation_mgr a)) a,
                             fs')
                        | ((_, _, error), fs') =>
                            (DivOk (Error, "Failed to save annotation: "
                                           ++ default "None" error),
                             a, fs')
                        end
                    end
                end
          end
    end.

End App.

Arguments App Image C : clear implicits.

(** The player of the examples after [clip.mp4] was loaded and its
    first frame shown, and an application on a player at a frame of
    [clip.mp4], with a start marked or not. *)
Definition shown_clip : VideoPlayer nat GopCap :=
  snd (fst (get_frame (snd (fst (load_video "clip.mp4" Player.init))))).

Definition app_at (frame : Z) (start : option num) : App nat GopCap :=
  {| player := player_at clip frame None (-1);
     annotation_mgr :=
       {| start_timestamp := start; annotation_history := [];
          annotation_dir := None |} |}.

End Controller.

Import Controller.


(** * Properties *)

(** ** The decode policy of [get_frame] *)

Section DecodePolicy.

Context {Image C : Type} `{!Capture Image C}.

Implicit Types (p : VideoPlayer Image C) (c : C).

Lemma read_forward_calls n last c :
  exists k, (k <= n)%nat /\ snd (read_forward n last c) = repeat CallRead k.
Proof.
  revert last c. induction n as [|n IH]; intros last c; simpl.
  - exists 0%nat. split; [lia | reflexivity].
  - destruct (read c) as [[ret frame] c'] eqn:Hr.
    destruct ret; simpl.
    + destruct (IH (true, frame) c') as (k & Hk & Hc).
      destruct (read_forward n (true, frame) c') as [[r c''] calls].
      simpl in *. subst calls. exists (S k). split; [lia | reflexivity].
    + exists 1%nat. split; [lia | reflexivity].
Qed.

Lemma seek_and_read_calls cur c :
  exists rest, snd (_seek_and_read cur c) = CallSet cur :: CallRead :: rest.
Proof.
  unfold _seek_and_read.
  destruct (read (set_pos_frames cur c)) as [[ret frame] c2].
  destruct ret; simpl; [eexists; reflexivity|].
  destruct (0 <? Z.min cur 30); [|eexists; reflexivity].
  destruct (read_forward _ _ _) as [[[ret' frame'] c4] reads].
  destruct ret'; eexists; reflexivity.
Qed.

Lemma get_frame_calls p c :
  video_capture p = Some c ->
  snd (get_frame p) = snd (decode p c).
Proof.
  intros Hc. unfold get_frame. rewrite Hc.
  destruct (decode p c) as [[[ret frame] c'] calls]. simpl.
  destruct (negb ret || is_None frame); [|reflexivity].
  destruct (last_valid_frame p); reflexivity.
Qed.

Lemma decode_sequential p c :
  current_frame p - last_read_position p = 1 ->
  decode p c = (read c, [CallRead]).
Proof.
  intros Hd. unfold decode.
  replace (Z.abs (current_frame p - last_read_position p) =? 1) with true
    by (symmetry; apply Z.eqb_eq; lia).
  replace (last_read_position p <? current_frame p) with true
    by (symmetry; apply Z.ltb_lt; lia).
  destruct (read c) as [[ret frame] c']. reflexivity.
Qed.

Lemma decode_seek p c :
  current_frame p - last_read_position p <> 1 ->
  decode p c = _seek_and_read (current_frame p) c.
Proof.
  intros Hd. unfold decode.
  destruct (Z.abs (current_frame p - last_read_position p) =? 1) eqn:Ha;
    [|reflexivity].
  destruct (last_read_position p <? current_frame p) eqn:Hl; [|reflexivity].
  apply Z.eqb_eq in Ha. apply Z.ltb_lt in Hl. lia.
Qed.

(** C1. On a loaded video, [get_frame] decodes with one plain read and
    no seek exactly when [current_frame - last_read_position = 1];
    every other transition (one step back, the same position, a jump in
    either direction) goes through [_seek_and_read], whose first calls
    are the seek to [current_frame] and a read. *)
Theorem get_frame_sequential_iff_forward_step p c :
  video_capture p = Some c ->
  (current_frame p - last_read_position p = 1 ->
     decode p c = (read c, [CallRead]) /\ snd (get_frame p) = [CallRead])
  /\ (current_frame p - last_read_position p <> 1 ->
     decode p c = _seek_and_read (current_frame p) c
     /\ exists rest,
          snd (get_frame p) = CallSet (current_frame p) :: CallRead :: rest)
  /\ (snd (get_frame p) = [CallRead]
      <-> current_frame p - last_read_position p = 1).
Proof.
  intros Hc. pose proof (get_frame_calls p c Hc) as Hcalls.
  assert (Hseq : current_frame p - last_read_position p = 1 ->
                 decode p c = (read c, [CallRead])
                 /\ snd (get_frame p) = [CallRead]).
  { intros Hd. pose proof (decode_sequential p c Hd) as He.
    split; [exact He|]. rewrite Hcalls, He. reflexivity. }
  assert (Hseek : current_frame p - last_read_position p <> 1 ->
                  decode p c = _seek_and_read (current_frame p) c
                  /\ exists rest,
                       snd (get_frame p)
                       = CallSet (current_frame p) :: CallRead :: rest).
  { intros Hd. pose proof (decode_seek p c Hd) as He.
    split; [exact He|]. rewrite Hcalls, He. apply seek_and_read_calls. }
  split; [exact Hseq|]. split; [exact Hseek|].
  split.
  - intros Hone.
    destruct (Z.eq_dec (current_frame p - last_read_position p) 1) as [|Hne];
      [assumption|].
    destruct (Hseek Hne) as [_ [rest Hrest]]. congruence.
  - intros Hd. apply Hseq, Hd.
Qed.

(** C2. On a loaded video, when the fresh decode fails (the read
    reports failure or hands back no image), [get_frame] answers with
    the cached frame and [used_cache = True] if there is one, and fails
    only if there is none; the cache is then left as it was. When the
    fresh decode succeeds, its frame is returned, it replaces the
    cache, and [last_read_position] becomes [current_frame]. *)
Theorem get_frame_cache_fallback p c ret frame c' calls :
  video_capture p = Some c ->
  decode p c = (ret, frame, c', calls) ->
  (ret = false \/ frame = None ->
     (forall cached, last_valid_frame p = Some cached ->
        fst (fst (get_frame p)) = (true, Some cached, true))
     /\ (last_valid_frame p = None ->
        fst (fst (get_frame p)) = (false, None, false))
     /\ last_valid_frame (snd (fst (get_frame p))) = last_valid_frame p
     /\ last_read_position (snd (fst (get_frame p))) = last_read_position p)
  /\ (forall img, ret = true -> frame = Some img ->
     fst (fst (get_frame p)) = (true, Some img, false)
     /\ last_valid_frame (snd (fst (get_frame p))) = Some img
     /\ last_read_position (snd (fst (get_frame p))) = current_frame p).
Proof.
  intros Hc Hd. unfold get_frame. rewrite Hc, Hd. split.
  - intros Hfail.
    assert (Hb : negb ret || is_None frame = true).
    { destruct Hfail as [-> | ->]; [reflexivity|].
      destruct ret; reflexivity. }
    rewrite Hb. simpl.
    destruct (last_valid_frame p) as [cached|] eqn:Hl; simpl.
    + repeat split; intros; congruence.
    + repeat split; intros; congruence.
  - intros img -> ->. simpl. repeat split.
Qed.

Lemma last_cons {A : Type} (a d : A) (l : list A) :
  List.last (a :: l) d = List.last l a.
Proof.
  revert a d. induction l as [|b l IH]; intros a d; [reflexivity|].
  change (List.last (a :: b :: l) d) with (List.last (b :: l) d).
  rewrite (IH b d). symmetry. apply IH.
Qed.

Lemma read_forward_all_ok n last c :
  forallb fst (fst (run_reads n c)) = true ->
  read_forward n last c
  = (List.last (fst (run_reads n c)) last, snd (run_reads n c),
     repeat CallRead n).
Proof.
  revert last c. induction n as [|n IH]; intros last c; simpl; [reflexivity|].
  destruct (read c) as [[ret frame] c1] eqn:Hr.
  specialize (IH (ret, frame) c1).
  destruct (run_reads n c1) as [l c2] eqn:Hrun.
  cbn [fst snd forallb]. intros Hall.
  apply andb_true_iff in Hall as [Hret Hall]. simpl in Hret. subst ret.
  simpl. rewrite (IH Hall). cbn [fst snd].
  change (match l with [] => (true, frame) | _ :: _ => List.last l last end)
    with (List.last ((true, frame) :: l) last).
  rewrite last_cons. reflexivity.
Qed.

Lemma read_forward_fail n last c :
  forallb fst (fst (run_reads n c)) = false ->
  (leading_ok (fst (run_reads n c)) < n)%nat
  /\ exists frame,
       read_forward n last c
       = (false, frame,
          snd (run_reads (S (leading_ok (fst (run_reads n c)))) c),
          repeat CallRead (S (leading_ok (fst (run_reads n c))))).
Proof.
  revert last c. induction n as [|n IH]; intros last c; [discriminate|].
  cbn [run_reads read_forward].
  destruct (read c) as [[ret frame] c1] eqn:Hr.
  specialize (IH (ret, frame) c1).
  destruct (run_reads n c1) as [l c2] eqn:Hrun.
  cbn [fst snd forallb]. intros Hall.
  destruct ret; cbn [negb fst andb leading_ok] in *.
  - destruct (IH Hall) as (Hlt & frame' & Heq).
    split; [lia|]. exists frame'. rewrite Heq.
    destruct (run_reads (S (leading_ok l)) c1) as [l' c4]. reflexivity.
  - split; [lia|]. exists frame. reflexivity.
Qed.

(** C3 (amended). When the direct seek and read fails, [_seek_and_read]
    does nothing more at [current_frame <= 0]; otherwise it seeks back
    by [min(current_frame, 30)] frames and reads forward, up to and
    including the target index, stopping at the first read that fails.
    It returns a frame exactly when every read of that run succeeds,
    and the frame is then the one read at the target index; as soon as
    one read of the run fails it returns a failure, whatever was
    decoded before. *)
Theorem seek_and_read_keyframe_recovery cur c frame0 c2 :
  read (set_pos_frames cur c) = (false, frame0, c2) ->
  let seek_back := Z.min cur 30 in
  let c3 := set_pos_frames (cur - seek_back) c2 in
  let n := Z.to_nat (seek_back + 1) in
  let run := run_reads n c3 in
  let k := leading_ok (fst run) in
  (cur <= 0 ->
     _seek_and_read cur c = (false, None, c2, [CallSet cur; CallRead]))
  /\ (0 < cur -> forallb fst (fst run) = true ->
     fst (List.last (fst run) (false, frame0)) = true
     /\ _seek_and_read cur c
        = (List.last (fst run) (false, frame0), snd run,
           [CallSet cur; CallRead; CallSet (cur - seek_back)]
           ++ repeat CallRead n))
  /\ (0 < cur -> forallb fst (fst run) = false ->
     (k < n)%nat
     /\ _seek_and_read cur c
        = (false, None, snd (run_reads (S k) c3),
           [CallSet cur; CallRead; CallSet (cur - seek_back)]
           ++ repeat CallRead (S k))).
Proof.
  intros Hr seek_back c3 n run k. unfold _seek_and_read. rewrite Hr.
  fold seek_back. fold c3. fold n.
  split; [|split].
  - intros Hle.
    replace (0 <? seek_back) with false; [reflexivity|].
    symmetry. apply Z.ltb_ge. unfold seek_back. lia.
  - intros Hpos Hall.
    replace (0 <? seek_back) with true
      by (symmetry; apply Z.ltb_lt; unfold seek_back; lia).
    rewrite (read_forward_all_ok n (false, frame0) c3 Hall). fold run.
    assert (Hlast : fst (List.last (fst run) (false, frame0)) = true).
    { assert (Hne : fst run <> []).
      { unfold run, n. replace (Z.to_nat (seek_back + 1))
          with (S (Z.to_nat seek_back)) by (unfold seek_back; lia).
        cbn [run_reads]. destruct (read c3) as [[r f] c'].
        destruct (run_reads _ c') as [l c'']. discriminate. }
      pose proof (proj1 (forallb_forall fst (fst run)) Hall) as Hin.
      apply Hin. destruct (exists_last Hne) as (l & a & Heq).
      rewrite Heq. rewrite List.last_last. apply in_or_app. right. left.
      reflexivity. }
    split; [exact Hlast|].
    destruct (List.last (fst run) (false, frame0)) as [ret' frame'].
    simpl in Hlast. subst ret'. reflexivity.
  - intros Hpos Hall.
    replace (0 <? seek_back) with true
      by (symmetry; apply Z.ltb_lt; unfold seek_back; lia).
    destruct (read_forward_fail n (false, frame0) c3 Hall)
      as (Hlt & frame' & Heq).
    split; [exact Hlt|]. rewrite Heq. reflexivity.
Qed.

End DecodePolicy.

(** ** Conversions of numbers *)

Section Numbers.

(** [int()] of a finite float is the rounding toward zero of its
    value. *)
Lemma float_trunc_round_toward_zero f :
  is_finite f = true -> float_trunc f = round_toward_zero (SF2Q f).
Proof.
  destruct f as [s|s| |s m e]; try discriminate; intros _;
    unfold round_toward_zero; simpl; [reflexivity|].
  destruct (0 <=? e) eqn:He; simpl.
  - apply Z.leb_le in He. rewrite Z.quot_1_r, Z.shiftl_mul_pow2 by lia.
    destruct s; simpl; lia.
  - apply Z.leb_gt in He.
    assert (Hp : 0 < 2 ^ (- e)) by (apply Z.pow_pos_nonneg; lia).
    rewrite Z2Pos.id by exact Hp.
    rewrite Z.shiftl_div_pow2 by lia.
    destruct s; simpl.
    + change (Z.neg m) with (- Z.pos m).
      rewrite Z.quot_opp_l by lia.
      rewrite Z.quot_div_nonneg by lia. reflexivity.
    + rewrite Z.quot_div_nonneg by lia. reflexivity.
Qed.

Lemma round_toward_zero_int z : round_toward_zero (inject_Z z) = z.
Proof. unfold round_toward_zero. simpl. apply Z.quot_1_r. Qed.

Lemma py_int_round_toward_zero x :
  finite_num x = true -> py_int x = Ok (round_toward_zero (value x)).
Proof.
  destruct x as [z|f]; simpl.
  - intros _. rewrite round_toward_zero_int. reflexivity.
  - intros Hf. rewrite <- (float_trunc_round_toward_zero f Hf).
    destruct f; try discriminate; reflexivity.
Qed.

(** A real number times a zero is a zero. *)
Lemma py_mul_zero x y :
  is_real x = true -> is_zero y = true ->
  exists r, py_mul x y = Ok r /\ py_int r = Ok 0.
Proof.
  destruct x as [a|f], y as [b|g]; simpl.
  - intros _ Hb. apply Z.eqb_eq in Hb. subst b.
    exists (PyInt (a * 0)). split; [reflexivity|]. simpl. f_equal. lia.
  - intros Ha Hg. unfold int_to_float.
    destruct (fl a) as [s|s| |s m e]; try discriminate;
      destruct g; try discriminate; simpl; eexists; split; reflexivity.
  - intros Hf Hb. apply Z.eqb_eq in Hb. subst b.
    destruct f; try discriminate; simpl; eexists; split; reflexivity.
  - intros Hf Hg.
    destruct f; try discriminate; destruct g; try discriminate; simpl;
      eexists; split; reflexivity.
Qed.

End Numbers.

(** ** Navigation *)

Section Navigation.

Context {Image C : Type} `{!Capture Image C}.

Implicit Types (p : VideoPlayer Image C).

Lemma set_current_frame_id p : set_current_frame (current_frame p) p = p.
Proof. destruct p. reflexivity. Qed.

Lemma skip_frames_invariant delta p : frame_invariant (snd (skip_frames delta p)).
Proof.
  unfold frame_invariant, skip_frames. simpl.
  destruct (0 <? total_frames p) eqn:Ht.
  - apply Z.ltb_lt in Ht. lia.
  - apply Z.ltb_ge in Ht. lia.
Qed.

(** C5. Every navigation operation (one step forward or back, a skip
    by any number of frames, a skip by any number of seconds, also one
    on which the conversion raises) applied to a player whose position
    is in range leaves the position in range: within
    [[0, total_frames - 1]] when [total_frames > 0], and 0 when
    [total_frames = 0]; it does not touch [total_frames]. *)
Theorem navigate_keeps_frame_in_range op p :
  frame_invariant p ->
  frame_invariant (navigate op p)
  /\ total_frames (navigate op p) = total_frames p
  /\ (0 < total_frames p ->
      0 <= current_frame (navigate op p) <= total_frames p - 1)
  /\ (total_frames p = 0 -> current_frame (navigate op p) = 0).
Proof.
  intros Hinv.
  assert (Hmain : frame_invariant (navigate op p)
                  /\ total_frames (navigate op p) = total_frames p).
  { destruct op as [| |delta|seconds]; simpl.
    - unfold next_frame.
      destruct (current_frame p <? total_frames p - 1) eqn:Hlt; simpl;
        [|split; [exact Hinv | reflexivity]].
      split; [|reflexivity]. apply Z.ltb_lt in Hlt.
      unfold frame_invariant in *. simpl.
      destruct (0 <? total_frames p) eqn:Ht; [lia|].
      apply Z.ltb_ge in Ht. lia.
    - unfold previous_frame.
      destruct (0 <? current_frame p) eqn:Hlt; simpl;
        [|split; [exact Hinv | reflexivity]].
      split; [|reflexivity]. apply Z.ltb_lt in Hlt.
      unfold frame_invariant in *. simpl.
      destruct (0 <? total_frames p) eqn:Ht; lia.
    - split; [apply skip_frames_invariant | reflexivity].
    - unfold skip_time.
      destruct (x <-- py_mul seconds (fps p);; py_int x) as [d|e]; simpl;
        [|split; [exact Hinv | reflexivity]].
      split; [apply skip_frames_invariant | reflexivity]. }
  destruct Hmain as [Hi Ht]. split; [exact Hi|]. split; [exact Ht|].
  unfold frame_invariant in Hi. rewrite Ht in Hi. split.
  - intros Hpos. apply Z.ltb_lt in Hpos. rewrite Hpos in Hi. exact Hi.
  - intros H0. rewrite H0 in Hi. exact Hi.
Qed.

(** C6. [skip_frames(delta)] moves [current_frame] to
    [max(0, min(current_frame + delta, total_frames - 1))], the clamp
    of [current_frame + delta] into [[0, total_frames - 1]], and
    returns the new position minus the old one, which from a position
    in range has the sign of [delta] and at most its magnitude.
    [skip_time(seconds)] is [skip_frames] of [seconds * fps] rounded
    toward zero, the product being the one of the language. With
    [current_frame = 5] and [total_frames = 10], [skip_frames(100)]
    returns 4 and leaves 9; with [current_frame = 10] and [fps = 25],
    [skip_time(-5)] asks for -125 frames, returns -10 and leaves 0. *)
Theorem skip_frames_clamps_and_skip_time_delegates delta seconds p :
  let new_frame := Z.max 0 (Z.min (current_frame p + delta) (total_frames p - 1)) in
  skip_frames delta p = (new_frame - current_frame p, set_current_frame new_frame p)
  /\ (0 < total_frames p ->
      new_frame = clamp 0 (total_frames p - 1) (current_frame p + delta)
      /\ 0 <= new_frame <= total_frames p - 1)
  /\ (frame_invariant p ->
      Z.abs (new_frame - current_frame p) <= Z.abs delta
      /\ 0 <= (new_frame - current_frame p) * delta)
  /\ (forall x, py_mul seconds (fps p) = Ok x -> finite_num x = true ->
      skip_time seconds p
      = (Ok (fst (skip_frames (round_toward_zero (value x)) p)),
         snd (skip_frames (round_toward_zero (value x)) p)))
  /\ (current_frame p = 5 -> total_frames p = 10 ->
      fst (skip_frames 100 p) = 4
      /\ current_frame (snd (skip_frames 100 p)) = 9)
  /\ (current_frame p = 10 -> fps p = PyFloat (fl 25) ->
      (x <-- py_mul (PyInt (-5)) (fps p) ;; py_int x) = Ok (-125)
      /\ fst (skip_time (PyInt (-5)) p) = Ok (-10)
      /\ current_frame (snd (skip_time (PyInt (-5)) p)) = 0).
Proof.
  intros new_frame. split; [reflexivity|].
  split.
  { intros Hpos. unfold clamp, new_frame.
    destruct (current_frame p + delta <? 0) eqn:H1;
      [apply Z.ltb_lt in H1; lia|].
    apply Z.ltb_ge in H1.
    destruct (total_frames p - 1 <? current_frame p + delta) eqn:H2;
      [apply Z.ltb_lt in H2 | apply Z.ltb_ge in H2]; lia. }
  split.
  { unfold frame_invariant, new_frame.
    destruct (0 <? total_frames p) eqn:Ht;
      [apply Z.ltb_lt in Ht | apply Z.ltb_ge in Ht]; intros Hinv.
    - split; [lia|]. nia.
    - split; [lia|]. nia. }
  split.
  { intros x Hx Hfin. unfold skip_time. rewrite Hx. simpl.
    rewrite (py_int_round_toward_zero x Hfin). reflexivity. }
  split.
  { intros Hc Ht. unfold skip_frames. simpl. rewrite Hc, Ht. split; reflexivity. }
  intros Hc Hf. unfold skip_time. rewrite Hf.
  split; [reflexivity|].
  change (x <-- py_mul (PyInt (-5)) (PyFloat (fl 25)) ;; py_int x)
    with (@Ok Z (-125)).
  unfold skip_frames. simpl. rewrite Hc. split; [f_equal; lia | lia].
Qed.

(** C10. When [fps] is 0 (as before any video is loaded, or when the
    container does not give it), [skip_time(seconds)] on a position in
    range returns 0 and leaves the player as it was, for every real
    number of seconds: the product [seconds * fps] is a zero.
    [skip_frames] does not look at [fps] and moves the position within
    its bounds in that same state. *)
Theorem skip_time_zero_fps seconds delta p :
  is_real seconds = true ->
  is_zero (fps p) = true ->
  frame_invariant p ->
  skip_time seconds p = (Ok 0, p)
  /\ current_frame (snd (skip_frames delta p))
     = Z.max 0 (Z.min (current_frame p + delta) (total_frames p - 1)).
Proof.
  intros Hreal Hzero Hinv. split; [|reflexivity].
  destruct (py_mul_zero seconds (fps p) Hreal Hzero) as (r & Hr & Hi).
  unfold skip_time. rewrite Hr. simpl. rewrite Hi.
  unfold skip_frames. cbv zeta.
  assert (Hnew : Z.max 0 (Z.min (current_frame p + 0) (total_frames p - 1))
                 = current_frame p).
  { unfold frame_invariant in Hinv.
    destruct (0 <? total_frames p) eqn:Ht;
      [apply Z.ltb_lt in Ht | apply Z.ltb_ge in Ht]; lia. }
  rewrite Hnew, set_current_frame_id. f_equal. f_equal. lia.
Qed.

End Navigation.

(** ** Loading *)

Section Loading.

Context {Image C : Type} `{!Capture Image C}.

Implicit Types (p : VideoPlayer Image C).

(** What [load_video] does in general: it releases the capture it
    holds before it opens anything, tries the second backend only when
    the first did not open, fails exactly when neither opened, and on
    success starts from frame 0 with an empty cache. On failure the
    capture that did not open stays in the player. *)
Lemma load_video_outcome file_path p :
  let first := VideoCapture file_path CAP_FFMPEG in
  let second := VideoCapture file_path CAP_ANY in
  let r := load_video file_path p in
  let p' := snd (fst r) in
  snd r = (if is_loaded p then [CallRelease] else [])
          ++ (if isOpened first then [CallOpen file_path CAP_FFMPEG]
              else [CallOpen file_path CAP_FFMPEG; CallOpen file_path CAP_ANY])
  /\ (fst (fst (fst r)) = false <-> isOpened first = false /\ isOpened second = false)
  /\ (fst (fst (fst r)) = true ->
      fst (fst r) = (true, None)
      /\ current_frame p' = 0 /\ last_valid_frame p' = None
      /\ last_read_position p' = -1 /\ video_path p' = Some file_path)
  /\ (fst (fst (fst r)) = false ->
      fst (fst r) = (false, Some "Failed to open video file"%string)
      /\ is_loaded p' = true
      /\ video_capture p' = Some second
      /\ current_frame p' = current_frame p
      /\ last_valid_frame p' = last_valid_frame p
      /\ last_read_position p' = last_read_position p).
Proof.
  unfold load_video, is_loaded.
  destruct (video_capture p) as [c|];
    destruct (isOpened (VideoCapture file_path CAP_FFMPEG)) eqn:H1;
    destruct (isOpened (VideoCapture file_path CAP_ANY)) eqn:H2;
    cbn [negb]; rewrite ?H1, ?H2; cbn;
    repeat split; try reflexivity; try discriminate; intros; try tauto;
    try (destruct H as [? ?]; discriminate).
Qed.

End Loading.

(** ** The methods on a concrete capture *)

Section Examples.

#[local] Open Scope nat_scope.

Lemma get_frame_sequential_iff_forward_step_witness :
  snd (get_frame (player_at clip 1 (Some 0) 0)) = [CallRead]
  /\ exists rest,
       snd (get_frame (player_at clip 3 (Some 0) 0))
       = CallSet 3 :: CallRead :: rest.
Proof.
  split.
  - apply (get_frame_sequential_iff_forward_step
             (player_at clip 1 (Some 0) 0) (stream clip) eq_refl).
    reflexivity.
  - apply (get_frame_sequential_iff_forward_step
             (player_at clip 3 (Some 0) 0) (stream clip) eq_refl).
    simpl. lia.
Defined.

Lemma get_frame_cache_fallback_witness :
  fst (fst (get_frame (player_at damaged 2 (Some 7) 0))) = (true, Some 7, true)
  /\ fst (fst (get_frame (player_at damaged 2 None (-1)))) = (false, None, false)
  /\ last_read_position (snd (fst (get_frame (player_at clip 2 (Some 7) 0)))) = 2%Z.
Proof.
  split; [|split].
  - let v := eval vm_compute in
        (decode (player_at damaged 2 (Some 7) 0) (stream damaged)) in
    pose proof (get_frame_cache_fallback (player_at damaged 2 (Some 7) 0)
                  (stream damaged) _ _ _ _ eq_refl
                  (eq_refl : decode (player_at damaged 2 (Some 7) 0)
                               (stream damaged) = v)) as [Hfail _].
    apply Hfail; [left|]; reflexivity.
  - let v := eval vm_compute in
        (decode (player_at damaged 2 None (-1)) (stream damaged)) in
    pose proof (get_frame_cache_fallback (player_at damaged 2 None (-1))
                  (stream damaged) _ _ _ _ eq_refl
                  (eq_refl : decode (player_at damaged 2 None (-1))
                               (stream damaged) = v)) as [Hfail _].
    apply Hfail; [left|]; reflexivity.
  - let v := eval vm_compute in
        (decode (player_at clip 2 (Some 7) 0) (stream clip)) in
    pose proof (get_frame_cache_fallback (player_at clip 2 (Some 7) 0)
                  (stream clip) _ _ _ _ eq_refl
                  (eq_refl : decode (player_at clip 2 (Some 7) 0)
                               (stream clip) = v)) as [_ Hok].
    apply (Hok 2); reflexivity.
Defined.

Lemma seek_and_read_keyframe_recovery_witness :
  fst (fst (_seek_and_read 2 (stream clip))) = (true, Some 2)
  /\ fst (fst (_seek_and_read 2 (stream damaged))) = (false, None)
  /\ fst (fst (_seek_and_read 0 (stream [corrupt]))) = (false, None).
Proof.
  split; [|split].
  - pose proof (seek_and_read_keyframe_recovery 2 (stream clip) None _ eq_refl)
      as (_ & Hok & _).
    destruct (Hok ltac:(lia) eq_refl) as [_ Heq]. rewrite Heq. reflexivity.
  - pose proof (seek_and_read_keyframe_recovery 2 (stream damaged) None _ eq_refl)
      as (_ & _ & Hfail).
    destruct (Hfail ltac:(lia) eq_refl) as [_ Heq]. rewrite Heq. reflexivity.
  - pose proof (seek_and_read_keyframe_recovery 0 (stream [corrupt]) None _ eq_refl)
      as (Hzero & _ & _).
    rewrite (Hzero ltac:(lia)). reflexivity.
Defined.

(** C3 (as stated, refuted). On the damaged stream at frame 2 the
    direct read fails and the forward run decodes frame 0, yet
    [_seek_and_read] returns a failure: the frame decoded before the
    failing read is not returned. *)
Lemma seek_and_read_drops_decoded_frames :
  ~ (forall (c : GopCap) (cur : Z),
       fst (fst (read (set_pos_frames cur c))) = false ->
       (exists img,
          In (true, Some img)
            (fst (run_reads (Z.to_nat (Z.min cur 30 + 1))
                    (set_pos_frames (cur - Z.min cur 30)
                       (snd (read (set_pos_frames cur c))))))) ->
       fst (fst (fst (_seek_and_read cur c))) = true).
Proof.
  intros H.
  specialize (H (stream damaged) 2%Z eq_refl).
  assert (Hrun : exists img,
             In (true, Some img)
               (fst (run_reads (Z.to_nat (Z.min 2 30 + 1))
                       (set_pos_frames (2 - Z.min 2 30)
                          (snd (read (set_pos_frames 2%Z (stream damaged)))))))).
  { exists 0. left. reflexivity. }
  specialize (H Hrun). discriminate H.
Qed.

(** C4 (the code at the failing input). After [clip.mp4] was loaded and
    its first frame shown, loading a file that neither backend opens
    returns the failure, but the capture that did not open stays in
    the player: [is_loaded()] still answers [True], the position and
    the cache of the released video are kept, and [get_frame()]
    returns the stale cached frame as a success. On a fresh player
    too, [is_loaded()] answers [True] after the failed load. *)
Theorem load_video_failure_leaves_session :
  let p0 := snd (fst (get_frame (snd (fst (load_video "clip.mp4" init))))) in
  let r := load_video "nothing.mp4" p0 in
  fst (fst r) = (false, Some "Failed to open video file"%string)
  /\ snd r = [CallRelease; CallOpen "nothing.mp4" CAP_FFMPEG;
              CallOpen "nothing.mp4" CAP_ANY]
  /\ is_loaded (snd (fst r)) = true
  /\ fst (fst (get_frame (snd (fst r)))) = (true, Some 0, true)
  /\ is_loaded (snd (fst (load_video "nothing.mp4" init))) = true
  /\ is_loaded (Player.init (Image := nat) (C := GopCap)) = false.
Proof. repeat split. Qed.

Lemma navigate_keeps_frame_in_range_witness :
  (0 <= current_frame
          (navigate (SkipByTime (PyInt 30)) (player_with 2 5 (PyFloat (fl 25))))
   <= 4)%Z
  /\ current_frame (navigate StepForward (player_with 0 0 (PyInt 0))) = 0%Z.
Proof.
  split.
  - apply (navigate_keeps_frame_in_range (SkipByTime (PyInt 30))
             (player_with 2 5 (PyFloat (fl 25)))).
    + unfold frame_invariant. simpl. lia.
    + simpl. lia.
  - apply (navigate_keeps_frame_in_range StepForward
             (player_with 0 0 (PyInt 0))).
    + unfold frame_invariant. simpl. reflexivity.
    + reflexivity.
Defined.

Lemma skip_frames_clamps_and_skip_time_delegates_witness :
  (fst (skip_frames 100 (player_with 5 10 (PyFloat (fl 25)))) = 4%Z
   /\ current_frame (snd (skip_frames 100 (player_with 5 10 (PyFloat (fl 25)))))
      = 9%Z)
  /\ fst (skip_time (PyInt (-5)) (player_with 10 100 (PyFloat (fl 25))))
     = Ok (-10)%Z.
Proof.
  split.
  - destruct (skip_frames_clamps_and_skip_time_delegates 100 (PyInt 0)
                (player_with 5 10 (PyFloat (fl 25))))
      as (_ & _ & _ & _ & Hex & _).
    apply Hex; reflexivity.
  - destruct (skip_frames_clamps_and_skip_time_delegates 0 (PyInt (-5))
                (player_with 10 100 (PyFloat (fl 25))))
      as (_ & _ & _ & _ & _ & Hex).
    apply Hex; reflexivity.
Defined.

Lemma skip_time_zero_fps_witness :
  (skip_time (PyFloat f59_9996) (player_with 3 10 (PyFloat (S754_zero false)))
   = (Ok 0%Z, player_with 3 10 (PyFloat (S754_zero false)))
   /\ current_frame
        (snd (skip_frames 4 (player_with 3 10 (PyFloat (S754_zero false)))))
      = 7%Z)
  /\ skip_time (PyInt 30) (Player.init (Image := nat) (C := GopCap))
     = (Ok 0%Z, Player.init).
Proof.
  split.
  - destruct (skip_time_zero_fps (PyFloat f59_9996) 4
                (player_with 3 10 (PyFloat (S754_zero false))))
      as [Hskip Hmove].
    + reflexivity.
    + reflexivity.
    + unfold frame_invariant. simpl. lia.
    + split; [exact Hskip | exact Hmove].
  - apply (skip_time_zero_fps (PyInt 30) 0 Player.init).
    + reflexivity.
    + reflexivity.
    + unfold frame_invariant. simpl. reflexivity.
Defined.

End Examples.

(** ** Timestamps *)

Section Timestamps.

#[local] Open Scope Q_scope.



















Lemma string_append_assoc (a b c : string) :
  ((a ++ b) ++ c = a ++ (b ++ c))%string.
Proof.
  induction a as [|x a IH]; [reflexivity|].
  change (String x ((a ++ b) ++ c) = String x (a ++ (b ++ c)))%string.
  rewrite IH. reflexivity.
Qed.





End Timestamps.

(** ** The annotation log *)

Section AnnotationLog.

Import Annotations.

#[local] Open Scope string_scope.

Lemma mem_In (x : string) (l : list string) : mem x l = true <-> In x l.
Proof.
  unfold mem. rewrite existsb_exists. split.
  - intros (y & Hin & Heq). apply String.eqb_eq in Heq. subst y. exact Hin.
  - intros Hin. exists x. split; [exact Hin | apply String.eqb_refl].
Qed.

Lemma NoDup_snoc (x : string) (l : list string) :
  List.NoDup l -> ~ In x l -> List.NoDup (l ++ [x])%list.
Proof.
  intros Hnd Hx. induction Hnd as [|y l Hy Hl IH]; simpl.
  - apply List.NoDup_cons; [simpl; tauto | apply List.NoDup_nil].
  - apply List.NoDup_cons.
    + intros Hin. apply in_app_or in Hin as [Hin | [Heq | []]].
      * exact (Hy Hin).
      * apply Hx. left. symmetry. exact Heq.
    + apply IH. intros Hin. apply Hx. right. exact Hin.
Qed.

(** C9. [add_to_history(text)] appends [text] at the end of the history
    only if [text] is not empty and not yet in the history, and leaves
    the manager as it is otherwise; the history it had stays in front,
    in its order, and stays free of duplicates. Calling it twice with
    the same text gives what calling it once gives; with the empty
    string it changes nothing; twice with ["x"] on a new manager the
    history is [["x"]]. *)
Theorem add_to_history_once (text : string) (m : AnnotationManager) :
  (text = EmptyString -> add_to_history text m = m)
  /\ (In text (annotation_history m) -> add_to_history text m = m)
  /\ (text <> EmptyString -> ~ In text (annotation_history m) ->
      annotation_history (add_to_history text m)
      = (annotation_history m ++ [text])%list)
  /\ (exists added,
        annotation_history (add_to_history text m)
        = (annotation_history m ++ added)%list)
  /\ (List.NoDup (annotation_history m) ->
      List.NoDup (annotation_history (add_to_history text m)))
  /\ add_to_history text (add_to_history text m) = add_to_history text m
  /\ add_to_history EmptyString m = m
  /\ annotation_history (add_to_history "x" (add_to_history "x" init)) = ["x"].
Proof.
  assert (Hempty : forall m', add_to_history EmptyString m' = m') by reflexivity.
  assert (Hin : forall t m', In t (annotation_history m') ->
                             add_to_history t m' = m').
  { intros t m' H. unfold add_to_history.
    apply mem_In in H. rewrite H, andb_false_r. reflexivity. }
  assert (Hnew : forall t m', t <> EmptyString -> ~ In t (annotation_history m') ->
                   annotation_history (add_to_history t m')
                   = (annotation_history m' ++ [t])%list).
  { intros t m' Hne Hnin. unfold add_to_history.
    apply String.eqb_neq in Hne. rewrite Hne.
    destruct (mem t (annotation_history m')) eqn:Hm;
      [apply mem_In in Hm; contradiction | reflexivity]. }
  assert (Hcases : text = EmptyString \/ In text (annotation_history m)
                   \/ (text <> EmptyString /\ ~ In text (annotation_history m))).
  { destruct (String.eqb_spec text EmptyString) as [|Hne]; [left; assumption|].
    destruct (mem text (annotation_history m)) eqn:Hm.
    - right. left. apply mem_In. exact Hm.
    - right. right. split; [exact Hne|]. intros H. apply mem_In in H.
      congruence. }
  split; [intros ->; apply Hempty|].
  split; [apply Hin|].
  split; [apply Hnew|].
  split.
  { destruct Hcases as [-> | [H | [Hne Hnin]]].
    - exists []. rewrite Hempty, app_nil_r. reflexivity.
    - exists []. rewrite (Hin _ _ H), app_nil_r. reflexivity.
    - exists [text]. apply Hnew; assumption. }
  split.
  { intros Hnd. destruct Hcases as [-> | [H | [Hne Hnin]]].
    - rewrite Hempty. exact Hnd.
    - rewrite (Hin _ _ H). exact Hnd.
    - rewrite (Hnew _ _ Hne Hnin). apply NoDup_snoc; assumption. }
  split.
  { destruct Hcases as [-> | [H | [Hne Hnin]]].
    - rewrite !Hempty. reflexivity.
    - rewrite (Hin _ _ H). apply Hin, H.
    - apply Hin. rewrite (Hnew _ _ Hne Hnin). apply in_or_app. right. left.
      reflexivity. }
  split; [apply Hempty | reflexivity].
Qed.

Lemma add_to_history_once_witness :
  annotation_history (add_to_history "x" init) = ["x"]
  /\ add_to_history "x" (add_to_history "x" init) = add_to_history "x" init
  /\ add_to_history EmptyString (add_to_history "x" init) = add_to_history "x" init.
Proof.
  split; [|split].
  - destruct (add_to_history_once "x" init) as (_ & _ & Hnew & _).
    apply Hnew; [discriminate | intros []].
  - apply (add_to_history_once "x" init).
  - destruct (add_to_history_once EmptyString (add_to_history "x" init)) as (He & _).
    apply He. reflexivity.
Defined.

(** When a video is given and the file opens, [save_annotation]
    succeeds with the path of the file of that video, to which it has
    appended the line of the annotation. *)
Lemma save_annotation_appends env m video start_str end_str text fs :
  video <> EmptyString ->
  refused fs !! annotation_file m video = None ->
  let r := save_annotation env m (Some video) start_str end_str text fs in
  fst r = (true, Some (annotation_file m video), None)
  /\ files (snd r) !! annotation_file m video
     = Some (default EmptyString (files fs !! annotation_file m video)
             ++ display_path env video ++ tab ++ start_str ++ tab ++ end_str
             ++ tab ++ text ++ newline)
  /\ annotation_file m video
     = PosixPath.join
         (match truthy (annotation_dir m) with
          | Some d => d
          | None => PosixPath.dirname video
          end)
         (fst (PosixPath.splitext (PosixPath.basename video))
          ++ "_annotations.txt").
Proof.
  intros Hne Hopen r. unfold r, save_annotation.
  assert (Ht : truthy (Some video) = Some video).
  { destruct video; [contradiction | reflexivity]. }
  rewrite Ht. unfold append_text. rewrite Hopen. cbn [fst snd files].
  split; [reflexivity|]. split; [|reflexivity].
  rewrite lookup_insert_eq. reflexivity.
Qed.

(** C8 (the code at the failing input). With the home directory
    [/home/bob], the video [/home/bobby/v.mp4] does not lie under the
    home directory, but its absolute path starts with the characters
    of [/home/bob]: the line written has the relative path
    [../bobby/v.mp4], not the absolute one. The file and the shape of
    the line are as the claim gives them. *)
Theorem save_annotation_sibling_of_home :
  let video := "/home/bobby/v.mp4" in
  let r := save_annotation bob init (Some video) "00:00:00.000" "00:00:02.000"
             "note" no_files in
  PosixPath.lies_under (PosixPath.abspath (cwd bob) video) (home_dir bob) = false
  /\ PosixPath.abspath (cwd bob) video = "/home/bobby/v.mp4"
  /\ display_path bob video = "../bobby/v.mp4"
  /\ fst r = (true, Some "/home/bobby/v_annotations.txt", None)
  /\ files (snd r) !! "/home/bobby/v_annotations.txt"
     = Some ("../bobby/v.mp4" ++ tab ++ "00:00:00.000" ++ tab ++ "00:00:02.000"
             ++ tab ++ "note" ++ newline)
  /\ display_path bob "/home/bob/clips/v.mp4" = "clips/v.mp4"
  /\ display_path bob "/srv/media/v.mp4" = "/srv/media/v.mp4".
Proof. repeat split; vm_compute; reflexivity. Qed.

End AnnotationLog.

(** ** Signs of the float operations *)

Section FloatSigns.

Lemma shr_1_nonneg mrs : 0 <= shr_m mrs -> 0 <= shr_m (shr_1 mrs).
Proof.
  destruct mrs as [m r s]. destruct m as [|[q|q|]|[q|q|]]; simpl; lia.
Qed.

Lemma iter_shr_1_nonneg n mrs :
  0 <= shr_m mrs -> 0 <= shr_m (SpecFloat.iter_pos shr_1 n mrs).
Proof.
  revert mrs. induction n as [n IH|n IH|]; intros mrs H; simpl.
  - apply IH, IH, shr_1_nonneg, H.
  - apply IH, IH, H.
  - apply shr_1_nonneg, H.
Qed.

Lemma shr_fexp_nonneg m e l :
  0 <= m -> 0 <= shr_m (fst (shr_fexp prec emax m e l)).
Proof.
  intros Hm. unfold shr_fexp, shr.
  assert (H0 : 0 <= shr_m (shr_record_of_loc m l))
    by (destruct l as [|[]]; exact Hm).
  destruct (fexp prec emax (Zdigits2 m + e) - e) as [|n|n]; simpl;
    [exact H0 | apply iter_shr_1_nonneg, H0 | exact H0].
Qed.

(** Rounding a magnitude keeps the sign it is given, and gives no
    NaN. *)
Lemma binary_round_aux_sign sx mx ex lx :
  0 <= mx -> sign_of (binary_round_aux prec emax sx mx ex lx) = Some sx.
Proof.
  intros Hm. unfold binary_round_aux.
  pose proof (shr_fexp_nonneg mx ex lx Hm) as H1.
  destruct (shr_fexp prec emax mx ex lx) as [mrs' e']. simpl in H1.
  assert (H2 : 0 <= round_nearest_even (shr_m mrs') (loc_of_shr_record mrs')).
  { unfold round_nearest_even.
    destruct (loc_of_shr_record mrs') as [|[]]; try lia.
    destruct (Z.even (shr_m mrs')); lia. }
  pose proof (shr_fexp_nonneg _ e' loc_Exact H2) as H3.
  destruct (shr_fexp prec emax _ e' loc_Exact) as [mrs'' e'']. simpl in H3.
  destruct (shr_m mrs'') as [|m|m]; [reflexivity| |lia].
  destruct (e'' <=? emax - prec); reflexivity.
Qed.

Lemma fl_sign z : sign_of (fl z) = Some (z <? 0).
Proof.
  unfold fl, binary_normalize. destruct z as [|m|m]; [reflexivity| |];
    unfold binary_round;
    destruct (shl_align m 0 _) as [mz ez];
    apply binary_round_aux_sign; lia.
Qed.

Lemma int_truediv_sign a b :
  0 < b -> sign_of (int_truediv a b) = Some (a <? 0).
Proof.
  intros Hb. unfold int_truediv. destruct a as [|a|a]; [reflexivity| |].
  - unfold SFdiv_core_binary.
    set (m' := match _ - _ with Z0 => _ | Zpos _ => _ | Zneg _ => _ end).
    assert (Hm' : 0 <= m').
    { unfold m'. destruct (_ - _); [lia| |lia]. apply Z.shiftl_nonneg. lia. }
    pose proof (Z.div_pos m' b Hm' Hb) as Hq. unfold Z.div in Hq.
    destruct (Z.div_eucl m' b) as [q r]. apply binary_round_aux_sign. exact Hq.
  - unfold SFdiv_core_binary.
    set (m' := match _ - _ with Z0 => _ | Zpos _ => _ | Zneg _ => _ end).
    assert (Hm' : 0 <= m').
    { unfold m'. destruct (_ - _); [simpl; lia| |lia]. apply Z.shiftl_nonneg.
      simpl. lia. }
    pose proof (Z.div_pos m' b Hm' Hb) as Hq. unfold Z.div in Hq.
    destruct (Z.div_eucl m' b) as [q r]. apply binary_round_aux_sign. exact Hq.
Qed.

(** The sign of a product is the product of the signs; the only NaN is
    that of zero times infinity. *)
Lemma SFmul_sign x y sx sy :
  sign_of x = Some sx -> sign_of y = Some sy ->
  sign_of (SFmul prec emax x y) = Some (xorb sx sy)
  \/ SFmul prec emax x y = S754_nan.
Proof.
  destruct x as [s|s| |s m e], y as [t|t| |t n f]; simpl;
    intros Hx Hy; try discriminate;
    inversion Hx; inversion Hy; subst; auto.
  left. apply binary_round_aux_sign. lia.
Qed.

(** The sign of a quotient of a finite float by a float that is not a
    zero is the product of the signs, and the quotient is no NaN. *)
Lemma SFdiv_sign x y sx sy :
  sign_of x = Some sx -> sign_of y = Some sy ->
  is_finite x = true -> is_float_zero y = false ->
  sign_of (SFdiv prec emax x y) = Some (xorb sx sy).
Proof.
  destruct x as [s|s| |s m e], y as [t|t| |t n f]; simpl;
    intros Hx Hy Hf Hz; try discriminate;
    inversion Hx; inversion Hy; subst; auto.
  unfold SFdiv_core_binary.
  set (m' := match _ - _ with Z0 => _ | Zpos _ => _ | Zneg _ => _ end).
  assert (Hm' : 0 <= m').
  { unfold m'. destruct (_ - _); [lia| |lia]. apply Z.shiftl_nonneg. lia. }
  pose proof (Z.div_pos m' (Z.pos n) Hm' ltac:(lia)) as Hq. unfold Z.div in Hq.
  destruct (Z.div_eucl m' (Z.pos n)) as [q r].
  apply binary_round_aux_sign. exact Hq.
Qed.

Lemma float_trunc_sign f :
  (sign_of f = Some false -> 0 <= float_trunc f)
  /\ (sign_of f = Some true -> float_trunc f <= 0).
Proof.
  destruct f as [s|s| |s m e]; simpl; try (split; intros; lia).
  assert (0 <= Z.shiftl (Z.pos m) e) by (apply Z.shiftl_nonneg; lia).
  split; intros Hs; inversion Hs; subst; simpl; lia.
Qed.

(** [int(x * y)] for [y] not below zero has the sign of [x]. *)
Lemma py_mul_int_sign x y r d :
  nonneg_num y -> py_mul x y = Ok r -> py_int r = Ok d ->
  (nonneg_num x -> 0 <= d) /\ (nonpos_num x -> d <= 0).
Proof.
  assert (Hfloat : forall f g sf sg,
             sign_of f = Some sf -> sign_of g = Some sg ->
             py_int (PyFloat (SFmul prec emax f g)) = Ok d ->
             (xorb sf sg = false -> 0 <= d) /\ (xorb sf sg = true -> d <= 0)).
  { intros f g sf sg Hf Hg Hd.
    destruct (SFmul_sign f g sf sg Hf Hg) as [Hs|Hn];
      [|rewrite Hn in Hd; discriminate].
    assert (Hd' : d = float_trunc (SFmul prec emax f g)).
    { simpl in Hd. destruct (SFmul prec emax f g); inversion Hd; reflexivity. }
    destruct (float_trunc_sign (SFmul prec emax f g)) as [Hp Hm].
    rewrite Hs in Hp, Hm. subst d.
    split; intros Hx; rewrite Hx in *; auto. }
  assert (Hzero : forall f g,
             is_float_zero f = true ->
             py_int (PyFloat (SFmul prec emax f g)) = Ok d -> d = 0).
  { intros f g Hf Hd. destruct f; try discriminate.
    destruct g; simpl in Hd; inversion Hd; reflexivity. }
  destruct x as [a|f], y as [b|g]; cbn [py_mul nonneg_num nonpos_num];
    intros Hy Hr Hd.
  - inversion Hr; subst r. simpl in Hd. inversion Hd; subst d.
    split; intros; nia.
  - pose proof (fl_sign a) as Ha. unfold int_to_float in Hr.
    assert (Hr' : r = PyFloat (SFmul prec emax (fl a) g)).
    { destruct (fl a); cbn [res_bind] in Hr; try discriminate;
        inversion Hr; reflexivity. }
    subst r. clear Hr.
    destruct (Z.eq_dec a 0) as [->|Hne].
    + apply (Hzero (fl 0) g eq_refl) in Hd. subst d. split; intros; lia.
    + destruct (Hfloat _ _ _ _ Ha Hy Hd) as [Hp Hm].
      rewrite xorb_false_r in Hp, Hm.
      split; intros Hx; simpl in Hx; [apply Hp, Z.ltb_ge | apply Hm, Z.ltb_lt];
        lia.
  - pose proof (fl_sign b) as Hb. unfold int_to_float in Hr.
    replace (b <? 0) with false in Hb by (symmetry; apply Z.ltb_ge; exact Hy).
    assert (Hr' : r = PyFloat (SFmul prec emax f (fl b))).
    { destruct (fl b); cbn [res_bind] in Hr; try discriminate;
        inversion Hr; reflexivity. }
    subst r. clear Hr.
    split; intros Hx; simpl in Hx;
      destruct (Hfloat _ _ _ _ Hx Hb Hd) as [Hp Hm]; auto.
  - inversion Hr; subst r.
    split; intros Hx; simpl in Hx;
      destruct (Hfloat _ _ _ _ Hx Hy Hd) as [Hp Hm]; auto.
Qed.

End FloatSigns.

(** ** The player across several calls *)

Section SessionFacts.

Context {Image C : Type} `{!Capture Image C}.

Implicit Types (p : VideoPlayer Image C) (c : C).

Lemma frame_invariant_position_ok p :
  frame_invariant p <-> position_ok (total_frames p) (current_frame p).
Proof. reflexivity. Qed.

(** [get_frame] moves nothing but the capture and the cache. *)
Lemma get_frame_keeps_position p :
  let p' := snd (fst (get_frame p)) in
  current_frame p' = current_frame p
  /\ total_frames p' = total_frames p
  /\ fps p' = fps p
  /\ video_path p' = video_path p
  /\ is_loaded p' = is_loaded p.
Proof.
  unfold get_frame, is_loaded. destruct (video_capture p) as [c|] eqn:Hc;
    [|cbn; rewrite Hc; repeat split].
  destruct (decode p c) as [[[ret frame] c'] calls].
  destruct (negb ret || is_None frame); [destruct (last_valid_frame _)|];
    cbn; repeat split.
Qed.

Lemma get_frame_unloaded p :
  video_capture p = None -> get_frame p = ((false, None, false), p, []).
Proof. intros Hc. unfold get_frame. rewrite Hc. reflexivity. Qed.

(** The outcome of [get_frame] on the sequential path, from the read it
    makes. *)
Lemma get_frame_sequential_outcome p c :
  video_capture p = Some c ->
  current_frame p - last_read_position p = 1 ->
  get_frame p
  = (if decoded (fst (read c))
     then ((true, snd (fst (read c)), false),
           set_cache (snd (fst (read c))) (current_frame p)
             (set_video_capture (Some (snd (read c))) p))
     else (match last_valid_frame p with
           | Some cached => (true, Some cached, true)
           | None => (false, None, false)
           end,
           set_video_capture (Some (snd (read c))) p),
     [CallRead]).
Proof.
  intros Hc Hd. unfold get_frame. rewrite Hc, (decode_sequential p c Hd).
  destruct (read c) as [[ret frame] c']. unfold decoded. cbn [fst snd].
  destruct ret, frame; cbn; try reflexivity;
    destruct (last_valid_frame p); reflexivity.
Qed.

(** X1. After a successful [load_video], the first [get_frame] makes
    one plain read and no seek, and never answers from the cache: it
    returns the frame just read, which it caches at position 0, or it
    fails; a frame of the video loaded before cannot come back. *)
Theorem first_get_frame_after_load file_path p :
  fst (fst (fst (load_video file_path p))) = true ->
  let p1 := snd (fst (load_video file_path p)) in
  let r := get_frame p1 in
  snd r = [CallRead]
  /\ snd (fst (fst r)) = false
  /\ (fst (fst (fst (fst r))) = false -> fst (fst r) = (false, None, false))
  /\ (forall img, snd (fst (fst (fst r))) = Some img ->
      fst (fst (fst (fst r))) = true
      /\ last_valid_frame (snd (fst r)) = Some img
      /\ last_read_position (snd (fst r)) = 0).
Proof.
  intros Hok p1 r.
  assert (Hload : exists c, video_capture p1 = Some c
                    /\ current_frame p1 = 0 /\ last_read_position p1 = -1
                    /\ last_valid_frame p1 = None).
  { unfold p1. unfold load_video in *.
    destruct (negb (isOpened (VideoCapture file_path CAP_FFMPEG)));
      match goal with
      | H : context [if negb (isOpened ?c) then _ else _] |- _ =>
          destruct (negb (isOpened c)); [discriminate H|];
          exists c; cbn; repeat split
      end. }
  destruct Hload as (c & Hc & Hcur & Hlast & Hcache).
  unfold r. rewrite (get_frame_sequential_outcome p1 c Hc) by lia.
  rewrite Hcache, Hcur. unfold decoded.
  destruct (read c) as [[ret frame] c']. cbn [fst snd].
  destruct ret, frame as [img|]; cbn; repeat split; try discriminate;
    intros; try discriminate; congruence.
Qed.

(** X2. After [release()] the player is not loaded, and [get_frame]
    fails without any call to the capture, also when a frame is still
    cached; a second [release()] and a later [load_video] release
    nothing more. [release()] itself keeps the position and the
    cache. *)
Theorem release_then_get_frame p :
  let p1 := fst (release p) in
  snd (release p) = (if is_loaded p then [CallRelease] else [])
  /\ is_loaded p1 = false
  /\ get_frame p1 = ((false, None, false), p1, [])
  /\ release p1 = (p1, [])
  /\ (forall file_path, ~ In CallRelease (snd (load_video file_path p1)))
  /\ current_frame p1 = current_frame p
  /\ last_valid_frame p1 = last_valid_frame p
  /\ last_read_position p1 = last_read_position p.
Proof.
  assert (Hnone : video_capture (fst (release p)) = None).
  { unfold release. destruct (video_capture p) eqn:Hc; [reflexivity | exact Hc]. }
  cbv zeta. split.
  { unfold release, is_loaded. destruct (video_capture p); reflexivity. }
  split; [unfold is_loaded; rewrite Hnone; reflexivity|].
  split; [apply get_frame_unloaded, Hnone|].
  split; [unfold release at 1; rewrite Hnone; reflexivity|].
  split.
  { intros file_path. unfold load_video. rewrite Hnone.
    destruct (negb (isOpened (VideoCapture file_path CAP_FFMPEG)));
      match goal with
      | |- context [if negb (isOpened ?c) then _ else _] =>
          destruct (negb (isOpened c))
      end; cbn; intros H; repeat (destruct H as [H|H]; [discriminate H|]);
      exact H. }
  unfold release. destruct (video_capture p); repeat split.
Qed.

(** One firing of playback from a frame that was just decoded, when
    the next read decodes. *)
Lemma play_tick_sequential p c :
  video_capture p = Some c ->
  last_read_position p = current_frame p ->
  current_frame p < total_frames p - 1 ->
  decoded (fst (read c)) = true ->
  play_tick p
  = (true,
     set_cache (snd (fst (read c))) (current_frame p + 1)
       (set_video_capture (Some (snd (read c)))
          (set_current_frame (current_frame p + 1) p)),
     [CallRead]).
Proof.
  intros Hc Hl Hlt Hdec. unfold play_tick, next_frame.
  replace (current_frame p <? total_frames p - 1) with true
    by (symmetry; apply Z.ltb_lt; exact Hlt).
  set (p1 := set_current_frame (current_frame p + 1) p).
  assert (Hc1 : video_capture p1 = Some c) by exact Hc.
  replace (is_loaded p1) with true by (unfold is_loaded; rewrite Hc1; reflexivity).
  rewrite (get_frame_sequential_outcome p1 c Hc1)
    by (unfold p1; simpl; lia).
  rewrite Hdec. reflexivity.
Qed.

(** X3. Playback reads sequentially: from a frame that was just
    decoded, [n] firings of [play_video] that stay before the end and
    whose reads all decode make exactly [n] plain reads and no seek;
    they advance the position by [n], leave [last_read_position] on it
    and the last frame read in the cache. *)
Theorem play_reads_sequentially n p c :
  video_capture p = Some c ->
  last_read_position p = current_frame p ->
  current_frame p + Z.of_nat n <= total_frames p - 1 ->
  forallb decoded (fst (run_reads n c)) = true ->
  snd (play n p) = repeat CallRead n
  /\ current_frame (fst (play n p)) = current_frame p + Z.of_nat n
  /\ last_read_position (fst (play n p)) = current_frame p + Z.of_nat n
  /\ video_capture (fst (play n p)) = Some (snd (run_reads n c))
  /\ last_valid_frame (fst (play n p))
     = snd (List.last (fst (run_reads n c)) (true, last_valid_frame p))
  /\ total_frames (fst (play n p)) = total_frames p.
Proof.
  revert p c. induction n as [|n IH]; intros p c Hc Hl Hend Hall.
  - cbn. rewrite Z.add_0_r. repeat split; assumption.
  - cbn [run_reads] in Hall |- *.
    destruct (read c) as [[ret frame] c1] eqn:Hr.
    destruct (run_reads n c1) as [l c2] eqn:Hrun.
    cbn [fst snd forallb] in Hall |- *.
    apply andb_true_iff in Hall as [Hdec Hall].
    cbn [play].
    rewrite (play_tick_sequential p c Hc Hl ltac:(lia))
      by (rewrite Hr; exact Hdec).
    rewrite Hr. cbn [fst snd].
    set (p2 := set_cache frame (current_frame p + 1)
                 (set_video_capture (Some c1)
                    (set_current_frame (current_frame p + 1) p))).
    specialize (IH p2 c1 eq_refl eq_refl).
    rewrite Hrun in IH. cbn [fst snd] in IH.
    assert (Hcur2 : current_frame p2 = current_frame p + 1) by reflexivity.
    assert (Htot2 : total_frames p2 = total_frames p) by reflexivity.
    rewrite Hcur2, Htot2 in IH.
    destruct (IH ltac:(lia) Hall) as (H1 & H2 & H3 & H4 & H5 & H6).
    destruct (play n p2) as [p3 calls3]. cbn [fst snd] in *.
    assert (Hret : ret = true).
    { unfold decoded in Hdec. cbn [fst] in Hdec.
      apply andb_true_iff in Hdec. tauto. }
    subst ret.
    rewrite H1, H2, H3, H4, H5, H6.
    repeat split; try lia.
    rewrite last_cons. reflexivity.
Qed.

(** X4. Showing again the frame that was just decoded, or stepping one
    frame back from it, takes the seek path: the first calls are the
    seek to the position asked for and a read. *)
Theorem get_frame_again_seeks p c :
  video_capture p = Some c ->
  last_read_position p = current_frame p ->
  (exists rest,
     snd (get_frame p) = CallSet (current_frame p) :: CallRead :: rest)
  /\ (0 < current_frame p ->
      fst (previous_frame p) = true
      /\ exists rest,
           snd (get_frame (snd (previous_frame p)))
           = CallSet (current_frame p - 1) :: CallRead :: rest).
Proof.
  intros Hc Hl. split.
  - rewrite (get_frame_calls p c Hc), (decode_seek p c) by lia.
    apply seek_and_read_calls.
  - intros Hpos. unfold previous_frame.
    replace (0 <? current_frame p) with true
      by (symmetry; apply Z.ltb_lt; exact Hpos).
    split; [reflexivity|]. cbn [snd].
    set (p1 := set_current_frame (current_frame p - 1) p).
    rewrite (get_frame_calls p1 c Hc), (decode_seek p1 c)
      by (unfold p1; simpl; lia).
    apply seek_and_read_calls.
Qed.

Lemma set_current_frame_twice a b p :
  set_current_frame a (set_current_frame b p) = set_current_frame a p.
Proof. reflexivity. Qed.

(** X5. A skip is undone by skipping back the delta it returned: from
    a position in range, [skip_frames(delta)] returning [n] followed by
    [skip_frames(-n)] returns [-n] and restores the player. *)
Theorem skip_frames_undo delta p :
  frame_invariant p ->
  skip_frames (- fst (skip_frames delta p)) (snd (skip_frames delta p))
  = (- fst (skip_frames delta p), p).
Proof.
  intros Hinv. unfold skip_frames. cbn [fst snd].
  set (new := Z.max 0 (Z.min (current_frame p + delta) (total_frames p - 1))).
  change (current_frame (set_current_frame new p)) with new.
  change (total_frames (set_current_frame new p)) with (total_frames p).
  assert (Hback : Z.max 0 (Z.min (new + - (new - current_frame p))
                             (total_frames p - 1)) = current_frame p).
  { unfold frame_invariant in Hinv.
    destruct (0 <? total_frames p) eqn:Ht;
      [apply Z.ltb_lt in Ht | apply Z.ltb_ge in Ht]; lia. }
  rewrite Hback, set_current_frame_twice, set_current_frame_id.
  f_equal. lia.
Qed.

(** X6. Over any sequence of skips, the deltas returned add up to the
    net movement of the position. *)
Theorem skip_all_net_movement deltas p :
  fold_right Z.add 0 (fst (skip_all deltas p))
  = current_frame (snd (skip_all deltas p)) - current_frame p
  /\ List.length (fst (skip_all deltas p)) = List.length deltas
  /\ total_frames (snd (skip_all deltas p)) = total_frames p.
Proof.
  revert p. induction deltas as [|d rest IH]; intros p.
  - cbn. repeat split. lia.
  - cbn [skip_all].
    destruct (skip_frames d p) as [n p1] eqn:Hs.
    specialize (IH p1). destruct (skip_all rest p1) as [ns p2].
    cbn [fst snd fold_right List.length] in *.
    destruct IH as (Hsum & Hlen & Htot).
    unfold skip_frames in Hs. inversion Hs; subst n p1. clear Hs.
    cbn in Hsum, Htot. rewrite Hsum, Hlen, Htot.
    repeat split. lia.
Qed.

(** X7. From a position in range, [next_frame()] moves as
    [skip_frames(1)] and [previous_frame()] as [skip_frames(-1)], and
    returns whether that skip moved; a step that moved is undone by the
    opposite step. *)
Theorem steps_are_unit_skips p :
  frame_invariant p ->
  next_frame p = (fst (skip_frames 1 p) =? 1, snd (skip_frames 1 p))
  /\ previous_frame p
     = (fst (skip_frames (-1) p) =? -1, snd (skip_frames (-1) p))
  /\ (fst (next_frame p) = true ->
      previous_frame (snd (next_frame p)) = (true, p))
  /\ (fst (previous_frame p) = true ->
      next_frame (snd (previous_frame p)) = (true, p)).
Proof.
  intros Hinv. unfold frame_invariant in Hinv.
  unfold next_frame, previous_frame, skip_frames. cbn [fst snd].
  destruct (0 <? total_frames p) eqn:Ht;
    [apply Z.ltb_lt in Ht | apply Z.ltb_ge in Ht].
  - split; [|split; [|split]].
    + destruct (current_frame p <? total_frames p - 1) eqn:Hlt;
        [apply Z.ltb_lt in Hlt | apply Z.ltb_ge in Hlt].
      * replace (Z.max 0 (Z.min (current_frame p + 1) (total_frames p - 1)))
          with (current_frame p + 1) by lia.
        f_equal. symmetry. apply Z.eqb_eq. lia.
      * replace (Z.max 0 (Z.min (current_frame p + 1) (total_frames p - 1)))
          with (current_frame p) by lia.
        rewrite set_current_frame_id. f_equal. symmetry. apply Z.eqb_neq. lia.
    + destruct (0 <? current_frame p) eqn:Hlt;
        [apply Z.ltb_lt in Hlt | apply Z.ltb_ge in Hlt].
      * replace (Z.max 0 (Z.min (current_frame p + -1) (total_frames p - 1)))
          with (current_frame p - 1) by lia.
        f_equal. symmetry. apply Z.eqb_eq. lia.
      * replace (Z.max 0 (Z.min (current_frame p + -1) (total_frames p - 1)))
          with (current_frame p) by lia.
        rewrite set_current_frame_id. f_equal. symmetry. apply Z.eqb_neq. lia.
    + destruct (current_frame p <? total_frames p - 1) eqn:Hlt;
        [apply Z.ltb_lt in Hlt | discriminate].
      intros _. cbn [fst snd].
      change (current_frame (set_current_frame (current_frame p + 1) p))
        with (current_frame p + 1).
      replace (0 <? current_frame p + 1) with true
        by (symmetry; apply Z.ltb_lt; lia).
      rewrite set_current_frame_twice.
      replace (current_frame p + 1 - 1) with (current_frame p) by lia.
      rewrite set_current_frame_id. reflexivity.
    + destruct (0 <? current_frame p) eqn:Hlt;
        [apply Z.ltb_lt in Hlt | discriminate].
      intros _. cbn [fst snd].
      change (current_frame (set_current_frame (current_frame p - 1) p))
        with (current_frame p - 1).
      change (total_frames (set_current_frame (current_frame p - 1) p))
        with (total_frames p).
      replace (current_frame p - 1 <? total_frames p - 1) with true
        by (symmetry; apply Z.ltb_lt; lia).
      rewrite set_current_frame_twice.
      replace (current_frame p - 1 + 1) with (current_frame p) by lia.
      rewrite set_current_frame_id. reflexivity.
  - rewrite Hinv.
    replace (0 <? total_frames p - 1) with false
      by (symmetry; apply Z.ltb_ge; lia).
    replace (Z.max 0 (Z.min (0 + 1) (total_frames p - 1))) with 0 by lia.
    replace (Z.max 0 (Z.min (0 + -1) (total_frames p - 1))) with 0 by lia.
    assert (Hid : set_current_frame 0 p = p)
      by (rewrite <- Hinv; apply set_current_frame_id).
    rewrite Hid. cbn. repeat split; discriminate.
Qed.

(** X8. The direction of a skip by time: on a position in range and
    with a frame rate that is not negative, [skip_time] of a number of
    seconds that is not negative never moves the position back nor
    returns a negative delta, and [skip_time] of a number that is not
    positive never moves it forward; the rounding of the product
    cannot turn a skip back into a skip forward. *)
Theorem skip_time_direction seconds p :
  frame_invariant p ->
  nonneg_num (fps p) ->
  (nonneg_num seconds ->
     current_frame p <= current_frame (snd (skip_time seconds p))
     /\ forall n, fst (skip_time seconds p) = Ok n -> 0 <= n)
  /\ (nonpos_num seconds ->
     current_frame (snd (skip_time seconds p)) <= current_frame p
     /\ forall n, fst (skip_time seconds p) = Ok n -> n <= 0).
Proof.
  intros Hinv Hfps. unfold skip_time.
  destruct (py_mul seconds (fps p)) as [r|e] eqn:Hm; cbn [res_bind];
    [|split; intros _; split; [cbn; lia | intros n H; discriminate H
                                | cbn; lia | intros n H; discriminate H]].
  destruct (py_int r) as [d|e] eqn:Hd;
    [|split; intros _; split; [cbn; lia | intros n H; discriminate H
                                | cbn; lia | intros n H; discriminate H]].
  destruct (py_mul_int_sign seconds (fps p) r d Hfps Hm Hd) as [Hp Hn].
  unfold skip_frames, frame_invariant in *. cbn [fst snd].
  change (current_frame (set_current_frame ?n p)) with n.
  destruct (0 <? total_frames p) eqn:Ht;
    [apply Z.ltb_lt in Ht | apply Z.ltb_ge in Ht];
    (split; intros Hs;
     [specialize (Hp Hs) | specialize (Hn Hs)];
     (split; [cbn; lia | intros n H; inversion H; lia])).
Qed.

Lemma py_gt0_float g :
  py_gt0 (PyFloat g) = true ->
  sign_of g = Some false /\ is_float_zero g = false.
Proof. destruct g as [s|[]| |[] m e]; simpl; try discriminate; auto. Qed.

(** X9. [get_current_timestamp()] never divides by zero: a frame rate
    that is not above zero (0, negative, NaN) gives the int 0. With a
    frame rate above zero and a position from 0 on, it returns a float
    whose sign bit is clear, so no NaN and nothing below zero; its
    only exception is the [OverflowError] of a position too large for
    a float. *)
Theorem get_current_timestamp_guarded p :
  get_current_timestamp p <> ZeroDivisionError
  /\ (py_gt0 (fps p) = false -> get_current_timestamp p = DivOk (PyInt 0))
  /\ (py_gt0 (fps p) = true -> 0 <= current_frame p ->
      match get_current_timestamp p with
      | DivOk (PyFloat f) => sign_of f = Some false
      | DivRaise e => e = OverflowError
      | _ => False
      end).
Proof.
  assert (Hpos : py_gt0 (fps p) = true -> 0 <= current_frame p ->
                 match py_truediv (PyInt (current_frame p)) (fps p) with
                 | DivOk (PyFloat f) => sign_of f = Some false
                 | DivRaise e => e = OverflowError
                 | _ => False
                 end).
  { intros Hgt Hcur. destruct (fps p) as [b|g]; cbn [py_truediv].
    - simpl in Hgt. apply Z.ltb_lt in Hgt.
      replace (b =? 0) with false by (symmetry; apply Z.eqb_neq; lia).
      replace (b <? 0) with false by (symmetry; apply Z.ltb_ge; lia).
      destruct (current_frame p =? 0); [reflexivity|].
      pose proof (int_truediv_sign (current_frame p) (Z.abs b) ltac:(lia)) as Hs.
      replace (current_frame p <? 0) with false in Hs
        by (symmetry; apply Z.ltb_ge; lia).
      unfold finite_or_overflow.
      destruct (int_truediv (current_frame p) (Z.abs b)); auto.
    - destruct (py_gt0_float g Hgt) as [Hsg Hnz]. rewrite Hnz.
      pose proof (fl_sign (current_frame p)) as Hs.
      replace (current_frame p <? 0) with false in Hs
        by (symmetry; apply Z.ltb_ge; lia).
      unfold int_to_float.
      destruct (fl (current_frame p)) as [s|s| |s m e] eqn:Hfl;
        try reflexivity; try discriminate Hs;
        rewrite <- Hfl in *;
        (rewrite (SFdiv_sign _ _ _ _ Hs Hsg);
         [reflexivity | rewrite Hfl; reflexivity | exact Hnz]). }
  unfold get_current_timestamp.
  destruct (py_gt0 (fps p)) eqn:Hgt.
  - split; [|split; [discriminate | intros _; apply Hpos; reflexivity]].
    destruct (fps p) as [b|g]; cbn [py_truediv].
    + simpl in Hgt. apply Z.ltb_lt in Hgt.
      replace (b =? 0) with false by (symmetry; apply Z.eqb_neq; lia).
      destruct (current_frame p =? 0); [discriminate|].
      unfold finite_or_overflow. destruct (int_truediv _ _); discriminate.
    + destruct (py_gt0_float g Hgt) as [_ Hnz]. rewrite Hnz.
      destruct (int_to_float (current_frame p)); discriminate.
  - split; [discriminate|]. split; [reflexivity | discriminate].
Qed.

(** What the position computed from the navigation bar can be. *)
Lemma nav_scale_frame_range x w p f :
  nav_scale_frame x w p = Ok f ->
  0 <= f /\ (0 < total_frames p -> f <= total_frames p - 1)
  /\ (total_frames p <= 0 -> f = 0).
Proof.
  unfold nav_scale_frame.
  destruct (int_truediv x w); try discriminate;
    (destruct (y <-- py_mul _ _ ;; py_int y) as [d|exn]; cbn [res_bind];
     [|discriminate]; intros H; inversion H; lia).
Qed.

Lemma nav_scale_seek_fields x w p :
  total_frames (nav_scale_seek x w p) = total_frames p
  /\ last_read_position (nav_scale_seek x w p) = last_read_position p
  /\ last_valid_frame (nav_scale_seek x w p) = last_valid_frame p
  /\ (frame_invariant p -> frame_invariant (nav_scale_seek x w p)).
Proof.
  unfold nav_scale_seek.
  destruct (negb (is_loaded p)); [repeat split; auto|].
  destruct (0 <? w); [|repeat split; auto].
  destruct (nav_scale_frame x w p) as [f|e] eqn:Hf; [|repeat split; auto].
  destruct (nav_scale_frame_range x w p f Hf) as (H0 & H1 & H2).
  repeat split. intros _. unfold frame_invariant. cbn.
  destruct (0 <? total_frames p) eqn:Ht;
    [apply Z.ltb_lt in Ht | apply Z.ltb_ge in Ht]; lia.
Qed.

(** X10. The position picked on the navigation bar is in range: the
    assignment that a click or a drag makes leaves the position within
    [[0, total_frames - 1]] (0 when there is no frame) wherever the
    pointer is, also outside the bar, and it keeps the frame count; at
    the left end of the bar or left of it ([x <= 0]) the position
    picked is 0. *)
Theorem nav_scale_seek_in_range x w p :
  frame_invariant p ->
  frame_invariant (nav_scale_seek x w p)
  /\ total_frames (nav_scale_seek x w p) = total_frames p
  /\ (x <= 0 -> 0 < w -> 0 <= total_frames p ->
      forall f, nav_scale_frame x w p = Ok f -> f = 0).
Proof.
  intros Hinv.
  destruct (nav_scale_seek_fields x w p) as (H2 & _ & _ & H1).
  split; [apply H1, Hinv|]. split; [exact H2|].
  intros Hx Hw Ht f. unfold nav_scale_frame.
  pose proof (int_truediv_sign x w Hw) as Hs.
  destruct (Z.eq_dec x 0) as [->|Hne].
  - change (int_truediv 0 w) with (S754_zero false).
    cbn [py_mul]. unfold int_to_float.
    destruct (fl (total_frames p)); cbn; intros H; inversion H; lia.
  - replace (x <? 0) with true in Hs by (symmetry; apply Z.ltb_lt; lia).
    destruct (int_truediv x w) as [s|s| |s m e] eqn:Hq; try discriminate;
      (destruct (py_mul _ (PyInt (total_frames p))) as [r|e'] eqn:Hm;
       cbn [res_bind]; [|discriminate];
       destruct (py_int r) as [d|e'] eqn:Hd; [|discriminate];
       destruct (py_mul_int_sign _ (PyInt (total_frames p)) r d Ht Hm Hd)
         as [_ Hn];
       specialize (Hn Hs); intros H; inversion H; lia).
Qed.

Lemma navigate_fields nav p :
  total_frames (navigate nav p) = total_frames p
  /\ last_valid_frame (navigate nav p) = last_valid_frame p
  /\ last_read_position (navigate nav p) = last_read_position p
  /\ (frame_invariant p -> frame_invariant (navigate nav p)).
Proof.
  destruct nav as [| |delta|seconds]; cbn [navigate].
  - unfold next_frame.
    destruct (current_frame p <? total_frames p - 1) eqn:Hlt;
      cbn [snd]; repeat split; try (intros; assumption).
    apply Z.ltb_lt in Hlt. unfold frame_invariant. cbn. intros Hinv.
    destruct (0 <? total_frames p) eqn:Ht;
      [apply Z.ltb_lt in Ht | apply Z.ltb_ge in Ht]; lia.
  - unfold previous_frame.
    destruct (0 <? current_frame p) eqn:Hlt;
      cbn [snd]; repeat split; try (intros; assumption).
    apply Z.ltb_lt in Hlt. unfold frame_invariant. cbn. intros Hinv.
    destruct (0 <? total_frames p) eqn:Ht; lia.
  - repeat split. intros _. apply skip_frames_invariant.
  - unfold skip_time.
    destruct (x <-- py_mul seconds (fps p);; py_int x) as [d|e];
      cbn [snd]; repeat split; try (intros; assumption).
    intros _. apply skip_frames_invariant.
Qed.

(** X11. Whatever the callers do, in whatever order (loading files
    that open or not, decoding, stepping, skipping by frames or by
    seconds, picking a position on the navigation bar, releasing), a
    player that started as [VideoPlayer()] has its position in range,
    and its cache goes with the position it was filled at:
    [last_read_position] is [-1] exactly as long as no frame is cached,
    and a position in range otherwise. *)
Theorem run_ops_invariants ops :
  frame_invariant (run_ops ops Player.init)
  /\ cache_invariant (run_ops ops Player.init)
  /\ (last_valid_frame (run_ops ops Player.init) = None
      <-> last_read_position (run_ops ops Player.init) = -1).
Proof.
  assert (Hstep : forall o p,
             frame_invariant p /\ cache_invariant p ->
             frame_invariant (apply_op o p) /\ cache_invariant (apply_op o p)).
  { intros o p [Hf Hc]. destruct o as [file_path| |nav|x w|]; cbn [apply_op].
    - unfold load_video.
      destruct (negb (isOpened (VideoCapture file_path CAP_FFMPEG)));
        match goal with
        | |- context [if negb (isOpened ?c) then _ else _] =>
            destruct (negb (isOpened c))
        end; cbn [fst snd];
        try (split; [exact Hf | exact Hc]);
        (split; [unfold frame_invariant; cbn;
                 destruct (0 <? get_frame_count _) eqn:Ht;
                 [apply Z.ltb_lt in Ht; lia | reflexivity]
                | reflexivity]).
    - unfold get_frame. destruct (video_capture p) as [c|]; [|auto].
      destruct (decode p c) as [[[ret frame] c'] calls].
      destruct (negb ret || is_None frame) eqn:Hb;
        [destruct (last_valid_frame (set_video_capture (Some c') p));
         cbn [fst snd]; split; assumption|].
      cbn [fst snd]. split; [exact Hf|].
      unfold cache_invariant. cbn.
      destruct frame; [exact Hf | rewrite orb_true_r in Hb; discriminate].
    - destruct (navigate_fields nav p) as (H1 & H2 & H3 & H4).
      split; [apply H4, Hf|]. unfold cache_invariant. rewrite H1, H2, H3.
      exact Hc.
    - destruct (nav_scale_seek_fields x w p) as (H2 & H3 & H4 & H1).
      split; [apply H1, Hf|]. unfold cache_invariant. rewrite H2, H3, H4.
      exact Hc.
    - unfold release. destruct (video_capture p); cbn [fst];
        split; assumption. }
  assert (Hrun : forall p,
             frame_invariant p /\ cache_invariant p ->
             frame_invariant (run_ops ops p) /\ cache_invariant (run_ops ops p)).
  { unfold run_ops. induction ops as [|o ops IH]; intros p Hp; [exact Hp|].
    cbn [fold_left]. apply IH, Hstep, Hp. }
  destruct (Hrun Player.init) as [Hf Hc].
  { split; reflexivity. }
  split; [exact Hf|]. split; [exact Hc|].
  unfold cache_invariant, position_ok in Hc.
  destruct (last_valid_frame (run_ops ops Player.init)) as [img|].
  - split; [discriminate|]. intros Hm.
    destruct (0 <? total_frames _); lia.
  - split; [intros _; exact Hc | reflexivity].
Qed.

End SessionFacts.

(** ** Paths of the annotation files *)

Section PathFacts.

Import PosixPath Annotations.

#[local] Open Scope string_scope.

Lemma string_app_nil_r (a : string) : a ++ EmptyString = a.
Proof.
  induction a as [|c a IH]; [reflexivity|].
  change (String c (a ++ EmptyString) = String c a). rewrite IH. reflexivity.
Qed.

Lemma string_app_cons (c : ascii) (a b : string) :
  String c a ++ b = String c (a ++ b).
Proof. reflexivity. Qed.

Lemma string_app_inv_head (a b c : string) : a ++ b = a ++ c -> b = c.
Proof.
  induction a as [|x a IH]; [intros H; exact H|].
  rewrite !string_app_cons. intros H. inversion H. apply IH. assumption.
Qed.

Lemma has_sep_app (a b : string) :
  has_sep (a ++ b) = has_sep a || has_sep b.
Proof.
  induction a as [|c a IH]; [reflexivity|].
  rewrite string_app_cons. simpl. rewrite IH. apply orb_assoc.
Qed.

Lemma cut_last_sep_app (p : string) :
  fst (cut_last_sep p) ++ snd (cut_last_sep p) = p.
Proof.
  induction p as [|c p IH]; [reflexivity|]. simpl.
  destruct (has_sep p).
  - destruct (cut_last_sep p) as [h t]. simpl in *.
    rewrite string_app_cons, IH. reflexivity.
  - destruct (is_sep c); reflexivity.
Qed.

(** The last component of a path has no separator. *)
Lemma basename_no_sep (p : string) : has_sep (basename p) = false.
Proof.
  unfold basename. induction p as [|c p IH]; [reflexivity|]. simpl.
  destruct (has_sep p) eqn:Hp.
  - destruct (cut_last_sep p) as [h t]. exact IH.
  - destruct (is_sep c) eqn:Hc; simpl; [exact Hp|]. rewrite Hc. exact Hp.
Qed.

Lemma cut_last_sep_no_sep (p : string) :
  has_sep p = false -> cut_last_sep p = (EmptyString, p).
Proof.
  destruct p as [|c p]; [reflexivity|]. simpl. intros H.
  apply orb_false_iff in H as [Hc Hp]. rewrite Hp, Hc. reflexivity.
Qed.

Lemma cut_last_sep_join (h t : string) :
  has_sep t = false ->
  cut_last_sep (h ++ String sep t) = (h ++ String sep EmptyString, t).
Proof.
  intros Ht. induction h as [|c h IH].
  - simpl. rewrite Ht. reflexivity.
  - rewrite !string_app_cons. simpl.
    rewrite has_sep_app. simpl. rewrite orb_true_r, IH. reflexivity.
Qed.

Lemma endswith_sep_cons (c c' : ascii) (a : string) :
  endswith_sep (String c (String c' a)) = endswith_sep (String c' a).
Proof.
  unfold endswith_sep. simpl. rewrite Nat.sub_0_r. reflexivity.
Qed.

Lemma endswith_sep_has_sep (a : string) :
  endswith_sep a = true -> has_sep a = true.
Proof.
  induction a as [|c a IH]; [discriminate|].
  destruct a as [|c' a].
  - unfold endswith_sep. simpl. intros H. rewrite H. reflexivity.
  - rewrite endswith_sep_cons. intros H. simpl in *. rewrite (IH H).
    apply orb_true_r.
Qed.

Lemma cut_last_sep_after_sep (a t : string) :
  endswith_sep a = true -> has_sep t = false ->
  cut_last_sep (a ++ t) = (a, t).
Proof.
  intros Ha Ht. induction a as [|c a IH]; [discriminate|].
  destruct a as [|c' a].
  - unfold endswith_sep in Ha. simpl in Ha.
    change (String c EmptyString ++ t) with (String c t). simpl.
    rewrite Ht, Ha. reflexivity.
  - rewrite endswith_sep_cons in Ha. specialize (IH Ha).
    rewrite string_app_cons. cbn [cut_last_sep].
    rewrite has_sep_app, (endswith_sep_has_sep _ Ha), IH. reflexivity.
Qed.

Lemma no_sep_not_abs (s : string) : has_sep s = false -> isabs s = false.
Proof.
  destruct s as [|c s]; [reflexivity|]. intros H. cbn [has_sep] in H.
  apply orb_false_iff in H as [Hc _]. unfold isabs. cbn [String.prefix].
  destruct (ascii_dec "/" c) as [<-|]; [discriminate Hc | reflexivity].
Qed.

(** The last component of [join(d, name)] is [name], when [name] has
    no separator. *)
Lemma basename_join (d name : string) :
  has_sep name = false -> basename (join d name) = name.
Proof.
  intros Hn. unfold join, basename. rewrite (no_sep_not_abs _ Hn).
  destruct (String.eqb_spec d EmptyString) as [->|Hd].
  - cbn [orb]. change (EmptyString ++ name) with name.
    rewrite (cut_last_sep_no_sep _ Hn). reflexivity.
  - cbn [orb]. destruct (endswith_sep d) eqn:He.
    + rewrite (cut_last_sep_after_sep _ _ He Hn). reflexivity.
    + change (d ++ "/" ++ name) with (d ++ String sep name).
      rewrite (cut_last_sep_join _ _ Hn). reflexivity.
Qed.

Lemma cut_last_dot_app (b h t : string) :
  cut_last_dot b = Some (h, t) ->
  b = h ++ t /\ exists t', t = String "." t'.
Proof.
  revert h t. induction b as [|c b IH]; intros h t; [discriminate|]. simpl.
  destruct (cut_last_dot b) as [[h' t']|].
  - intros H. inversion H; subst. destruct (IH h' t eq_refl) as [Hb Ht].
    split; [rewrite string_app_cons, <- Hb; reflexivity | exact Ht].
  - destruct (Ascii.eqb_spec c ".") as [->|]; [|discriminate].
    intros H. inversion H; subst. split; [reflexivity | eexists; reflexivity].
Qed.

(** [splitext] on a name without separator: the root and the extension
    make the name again, and the extension is empty or starts with a
    dot. *)
Lemma splitext_name (b : string) :
  has_sep b = false ->
  fst (splitext b) ++ snd (splitext b) = b
  /\ (snd (splitext b) = EmptyString
      \/ exists t', snd (splitext b) = String "." t').
Proof.
  intros Hb. unfold splitext. rewrite (cut_last_sep_no_sep _ Hb).
  destruct (cut_last_dot b) as [[stem ext]|] eqn:Hd.
  - destruct (cut_last_dot_app _ _ _ Hd) as [Happ Hext].
    destruct (all_dots stem); cbn [fst snd].
    + split; [apply string_app_nil_r | left; reflexivity].
    + split; [symmetry; exact Happ | right; exact Hext].
  - cbn [fst snd]. split; [apply string_app_nil_r | left; reflexivity].
Qed.

(** X12. The annotation file of a video is named after the video: its
    last component is the base name of the video without its extension
    followed by [_annotations.txt], whatever the directory override.
    It is never the video file itself, so that [save_annotation]
    never writes into the video. *)
Theorem annotation_file_never_the_video m video :
  basename (annotation_file m video)
  = fst (splitext (basename video)) ++ "_annotations.txt"
  /\ annotation_file m video <> video
  /\ forall env start_str end_str text fs,
       files (snd (save_annotation env m (Some video) start_str end_str
                     text fs)) !! video
       = files fs !! video.
Proof.
  pose proof (basename_no_sep video) as Hb.
  destruct (splitext_name _ Hb) as [Hround Hext].
  set (stem := fst (splitext (basename video))) in *.
  assert (Hstem : has_sep stem = false).
  { rewrite <- Hround, has_sep_app in Hb.
    apply orb_false_iff in Hb. tauto. }
  assert (Hname : has_sep (stem ++ "_annotations.txt") = false)
    by (rewrite has_sep_app, Hstem; reflexivity).
  assert (Hbase : basename (annotation_file m video)
                  = stem ++ "_annotations.txt").
  { unfold annotation_file. fold stem. apply basename_join, Hname. }
  assert (Hne : annotation_file m video <> video).
  { intros Heq. rewrite Heq in Hbase. rewrite <- Hround in Hbase at 1.
    apply string_app_inv_head in Hbase.
    destruct Hext as [He|[t' He]]; rewrite He in Hbase; discriminate. }
  split; [exact Hbase|]. split; [exact Hne|].
  intros env start_str end_str text fs. unfold save_annotation.
  destruct (truthy (Some video)) as [v|] eqn:Hv; [|reflexivity].
  assert (v = video) by (destruct video; inversion Hv; reflexivity). subst v.
  unfold append_text.
  destruct (refused fs !! annotation_file m video); [reflexivity|].
  cbn [snd files]. apply lookup_insert_ne. exact Hne.
Qed.

End PathFacts.

(** ** The annotation log over several calls *)

Section LogFacts.

Import PosixPath Annotations.

#[local] Open Scope string_scope.

Lemma add_to_history_fields (t : string) (m : AnnotationManager) :
  start_timestamp (add_to_history t m) = start_timestamp m
  /\ annotation_dir (add_to_history t m) = annotation_dir m
  /\ (forall x, In x (annotation_history (add_to_history t m))
                <-> In x (annotation_history m) \/ (x = t /\ t <> EmptyString))
  /\ (exists added,
        annotation_history (add_to_history t m)
        = (annotation_history m ++ added)%list)
  /\ (List.NoDup (annotation_history m) ->
      List.NoDup (annotation_history (add_to_history t m))).
Proof.
  unfold add_to_history.
  destruct (String.eqb_spec t EmptyString) as [->|Hne]; cbn [negb andb].
  - repeat split; auto.
    + intros [H|[_ H]]; [exact H | contradiction].
    + exists []. rewrite app_nil_r. reflexivity.
  - destruct (mem t (annotation_history m)) eqn:Hm; cbn [negb].
    + apply mem_In in Hm. repeat split; auto.
      * intros [H|[-> _]]; assumption.
      * exists []. rewrite app_nil_r. reflexivity.
    + assert (Hnin : ~ In t (annotation_history m))
        by (intros H; apply mem_In in H; congruence).
      cbn. repeat split.
      * intros H. apply in_app_or in H as [H|[H|[]]]; auto.
      * intros [H|[-> _]]; apply in_or_app; [left; exact H | right; left; reflexivity].
      * exists [t]. reflexivity.
      * intros Hnd. apply NoDup_snoc; assumption.
Qed.

(** X13. After any sequence of [add_to_history] calls the history
    starts with the history there was, has no duplicates if it had
    none, and holds exactly the entries it had and the non-empty texts
    recorded; the start marker and the directory are not touched. *)
Theorem record_all_history (texts : list string) (m : AnnotationManager) :
  (exists added,
     annotation_history (record_all texts m)
     = (annotation_history m ++ added)%list)
  /\ (List.NoDup (annotation_history m) ->
      List.NoDup (annotation_history (record_all texts m)))
  /\ (forall x, In x (annotation_history (record_all texts m))
                <-> In x (annotation_history m)
                    \/ (In x texts /\ x <> EmptyString))
  /\ start_timestamp (record_all texts m) = start_timestamp m
  /\ annotation_dir (record_all texts m) = annotation_dir m.
Proof.
  unfold record_all. revert m.
  induction texts as [|t texts IH]; intros m; cbn [fold_left].
  - repeat split; auto.
    + exists []. rewrite app_nil_r. reflexivity.
    + intros [H|[[] _]]. exact H.
  - destruct (add_to_history_fields t m) as (Hs & Hd & Hin & [a1 Ha1] & Hnd).
    destruct (IH (add_to_history t m)) as ([a2 Ha2] & Hnd2 & Hin2 & Hs2 & Hd2).
    split; [exists (a1 ++ a2)%list; rewrite Ha2, Ha1, app_assoc; reflexivity|].
    split; [intros H; apply Hnd2, Hnd, H|].
    split; [|split; congruence].
    intros x. rewrite Hin2, Hin. cbn [In]. split.
    + intros [[H|[-> H]]|[H1 H2]]; auto.
    + intros [H|[[<-|H1] H2]]; auto.
Qed.

Lemma save_annotation_shape env m video start_str end_str text fs :
  let r := save_annotation env m video start_str end_str text fs in
  (exists msg, r = ((false, None, Some msg), fs))
  \/ (exists v, truthy video = Some v
        /\ refused fs !! annotation_file m v = None
        /\ r = ((true, Some (annotation_file m v), None),
                {| files :=
                     <[annotation_file m v :=
                         default EmptyString (files fs !! annotation_file m v)
                         ++ annotation_line (display_path env v) start_str
                              end_str text]> (files fs);
                   refused := refused fs |})).
Proof.
  unfold save_annotation. destruct (truthy video) as [v|];
    [|left; eexists; reflexivity].
  unfold append_text.
  destruct (refused fs !! annotation_file m v) as [msg|] eqn:Hr;
    [left; eexists; reflexivity|].
  right. exists v. repeat split. exact Hr.
Qed.


(** X15. Annotations of one video saved one after the other all go to
    the same file, which then holds what it held followed by their
    lines in the order of the calls; every call succeeds when the file
    opens, and no other file changes. *)
Theorem save_all_appends_in_order env m video entries fs :
  video <> EmptyString ->
  refused fs !! annotation_file m video = None ->
  let r := save_all env m (Some video) entries fs in
  default EmptyString (files (snd r) !! annotation_file m video)
  = default EmptyString (files fs !! annotation_file m video)
    ++ fold_right String.append EmptyString
         (map (fun '(start_str, end_str, text) =>
                 annotation_line (display_path env video) start_str end_str
                   text) entries)
  /\ Forall (fun res => res = (true, Some (annotation_file m video), None))
       (fst r)
  /\ List.length (fst r) = List.length entries
  /\ (forall q, q <> annotation_file m video ->
      files (snd r) !! q = files fs !! q).
Proof.
  intros Hne. revert fs.
  induction entries as [|[[start_str end_str] text] rest IH]; intros fs Hopen.
  - cbn. rewrite string_app_nil_r. repeat split; auto.
  - cbn [save_all].
    destruct (save_annotation_shape env m (Some video) start_str end_str text fs)
      as [[msg Hr]|(v & Hv & _ & Hr)]; cbv zeta in Hr.
    + exfalso. unfold save_annotation in Hr.
      assert (Ht : truthy (Some video) = Some video)
        by (destruct video; [contradiction | reflexivity]).
      rewrite Ht in Hr. unfold append_text in Hr. rewrite Hopen in Hr.
      discriminate Hr.
    + assert (v = video) by (destruct video; inversion Hv; reflexivity).
      subst v. rewrite Hr.
      set (fs1 := {| files := _; refused := refused fs |}).
      specialize (IH fs1 Hopen).
      destruct (save_all env m (Some video) rest fs1) as [rs fs2].
      cbv zeta in IH. cbn [fst snd] in IH |- *.
      destruct IH as (Hfile & Hall & Hlen & Hother).
      split; [|split; [|split]].
      * rewrite Hfile. unfold fs1. cbn [files].
        rewrite lookup_insert_eq. cbn [default from_option id map fold_right].
        rewrite !string_append_assoc. reflexivity.
      * constructor; [reflexivity | exact Hall].
      * cbn. rewrite Hlen. reflexivity.
      * intros q Hq. rewrite (Hother q Hq). unfold fs1. cbn [files].
        apply lookup_insert_ne. congruence.
Qed.

End LogFacts.

(** ** The annotation buttons *)

Section ControllerFacts.

Context {Image C : Type} `{!Capture Image C}.

Import Annotations.

#[local] Open Scope string_scope.

Implicit Types (a : App Image C).

Lemma SFltb_irrefl f : SFltb f f = false.
Proof.
  unfold SFltb, SFcompare. destruct f as [s|s| |s m e]; try reflexivity.
  - destruct s; reflexivity.
  - destruct s; rewrite Z.compare_refl, Pos.compare_cont_refl; reflexivity.
Qed.

(** No number is below itself. *)
Lemma py_lt_irrefl x : py_lt x x = false.
Proof.
  destruct x as [z|f]; [apply Z.ltb_irrefl | apply SFltb_irrefl].
Qed.



(** X17. [mark_start] on a loaded player stores the current timestamp
    as the start, also when it is the 0 of the first frame, and
    touches neither the player nor the history; an end marked at that
    same position is never refused as lying before the start.
    [clear_markers] removes the start. *)
Theorem mark_start_then_end a :
  is_loaded (player a) = true ->
  forall t, get_current_timestamp (player a) = DivOk t ->
  let a1 := snd (mark_start a) in
  start_timestamp (annotation_mgr a1) = Some t
  /\ has_start (annotation_mgr a1) = true
  /\ player a1 = player a
  /\ annotation_history (annotation_mgr a1)
     = annotation_history (annotation_mgr a)
  /\ has_start (annotation_mgr (clear_markers a1)) = false
  /\ forall env text fs,
       fst (fst (mark_end_and_save env text a1 fs))
       <> DivOk (Warning, "End timestamp must be after start timestamp")
       /\ fst (fst (mark_end_and_save env text a1 fs))
          <> DivOk (Warning, "Please mark start timestamp first").
Proof.
  intros Hl t Hts a1.
  assert (Ha1 : a1 = with_mgr (set_start t (annotation_mgr a)) a).
  { unfold a1, mark_start. rewrite Hl, Hts. cbn [negb].
    destruct (format_timestamp t); reflexivity. }
  rewrite Ha1. cbn [with_mgr player annotation_mgr set_start start_timestamp
                      annotation_history has_start clear_markers clear_start].
  repeat split.
  - unfold mark_end_and_save. cbn [with_mgr player annotation_mgr set_start
                                     start_timestamp].
    rewrite Hl, Hts, py_lt_irrefl. cbn [negb].
    destruct (String.eqb text EmptyString); [discriminate|].
    destruct (format_timestamp t); [|discriminate].
    destruct (save_annotation _ _ _ _ _ _ _) as [[[[] [file|]] err] fs'];
      discriminate.
  - unfold mark_end_and_save. cbn [with_mgr player annotation_mgr set_start
                                     start_timestamp].
    rewrite Hl, Hts, py_lt_irrefl. cbn [negb].
    destruct (String.eqb text EmptyString); [discriminate|].
    destruct (format_timestamp t); [|discriminate].
    destruct (save_annotation _ _ _ _ _ _ _) as [[[[] [file|]] err] fs'];
      discriminate.
Qed.

End ControllerFacts.

(** ** Bounded work, and recovery after a failure *)

Section DecodeBounds.

Context {Image C : Type} `{!Capture Image C}.

Implicit Types (p : VideoPlayer Image C) (c : C).

Lemma count_set_repeat_read k :
  List.length (List.filter (fun o => match o with CallSet _ => true | _ => false end)
                 (repeat CallRead k)) = 0%nat.
Proof. induction k as [|k IH]; [reflexivity | exact IH]. Qed.

Lemma in_repeat_read o k : In o (repeat CallRead k) -> o = CallRead.
Proof.
  induction k as [|k IH]; [intros []|]. intros [H|H]; [symmetry; exact H|].
  apply IH, H.
Qed.

(** X18. One [get_frame] costs a bounded number of calls to the
    capture, whatever the capture answers: at most 34 (a seek and a
    read, then a seek back and at most 31 reads), at most two of them
    seeks, and no seek goes further back than 30 frames before the
    position asked for or beyond it. *)
Theorem get_frame_bounded_work p :
  (List.length (snd (get_frame p)) <= 34)%nat
  /\ (List.length
        (List.filter (fun o => match o with CallSet _ => true | _ => false end)
           (snd (get_frame p))) <= 2)%nat
  /\ (forall n, In (CallSet n) (snd (get_frame p)) ->
      current_frame p - 30 <= n <= current_frame p)
  /\ ~ In CallRelease (snd (get_frame p)).
Proof.
  assert (Hseek : forall cur c,
             let calls := snd (_seek_and_read cur c) in
             (List.length calls <= 34)%nat
             /\ (List.length
                   (List.filter (fun o => match o with CallSet _ => true | _ => false end)
                      calls) <= 2)%nat
             /\ (forall n, In (CallSet n) calls -> cur - 30 <= n <= cur)
             /\ ~ In CallRelease calls).
  { intros cur c. unfold _seek_and_read.
    destruct (read (set_pos_frames cur c)) as [[ret frame] c2].
    destruct ret.
    { cbn. repeat split; try lia.
      - destruct H as [H|[H|[]]]; inversion H; lia.
      - destruct H as [H|[H|[]]]; inversion H; lia.
      - intros [H|[H|[]]]; discriminate H. }
    destruct (0 <? Z.min cur 30) eqn:Hsb.
    2:{ cbn. repeat split; try lia.
        - destruct H as [H|[H|[]]]; inversion H; lia.
        - destruct H as [H|[H|[]]]; inversion H; lia.
        - intros [H|[H|[]]]; discriminate H. }
    apply Z.ltb_lt in Hsb.
    destruct (read_forward_calls (Z.to_nat (Z.min cur 30 + 1)) (false, frame)
                (set_pos_frames (cur - Z.min cur 30) c2)) as (k & Hk & Hcalls).
    destruct (read_forward _ _ _) as [[[ret' frame'] c4] reads].
    cbn [snd] in Hcalls. subst reads.
    assert (Hgoal : (List.length
                       ([CallSet cur; CallRead; CallSet (cur - Z.min cur 30)]
                        ++ repeat CallRead k) <= 34)%nat
                    /\ (List.length
                          (List.filter (fun o => match o with CallSet _ => true | _ => false end)
                             ([CallSet cur; CallRead; CallSet (cur - Z.min cur 30)]
                              ++ repeat CallRead k)) <= 2)%nat
                    /\ (forall n,
                          In (CallSet n)
                            ([CallSet cur; CallRead; CallSet (cur - Z.min cur 30)]
                             ++ repeat CallRead k) -> cur - 30 <= n <= cur)
                    /\ ~ In CallRelease
                           ([CallSet cur; CallRead; CallSet (cur - Z.min cur 30)]
                            ++ repeat CallRead k)).
    { cbn [app List.length List.filter]. rewrite repeat_length, count_set_repeat_read.
      repeat split; try lia.
      - destruct H as [H|[H|[H|H]]]; try (inversion H; lia).
        apply in_repeat_read in H. discriminate H.
      - destruct H as [H|[H|[H|H]]]; try (inversion H; lia).
        apply in_repeat_read in H. discriminate H.
      - intros [H|[H|[H|H]]]; try discriminate H.
        apply in_repeat_read in H. discriminate H. }
    destruct ret'; exact Hgoal. }
  destruct (video_capture p) as [c|] eqn:Hc.
  - rewrite (get_frame_calls p c Hc). unfold decode.
    assert (Hread : forall r : bool * option Image * C * list Call,
               snd r = [CallRead] ->
               (List.length (snd r) <= 34)%nat
               /\ (List.length
                     (List.filter (fun o => match o with CallSet _ => true | _ => false end)
                        (snd r)) <= 2)%nat
               /\ (forall n, In (CallSet n) (snd r) ->
                   current_frame p - 30 <= n <= current_frame p)
               /\ ~ In CallRelease (snd r)).
    { intros r ->. cbn. repeat split; try lia.
      - destruct H as [H|[]]; discriminate H.
      - destruct H as [H|[]]; discriminate H.
      - intros [H|[]]; discriminate H. }
    destruct (Z.abs (current_frame p - last_read_position p) =? 1);
      [destruct (last_read_position p <? current_frame p)|];
      try apply Hseek.
    apply Hread. destruct (read c) as [[ret frame] c']. reflexivity.
  - rewrite (get_frame_unloaded p Hc). cbn. repeat split; try lia;
      try contradiction.
Qed.

(** X19. A failed decode breaks the sequential run: when the plain
    read of the next frame does not decode, [last_read_position] stays
    where it was, and the [get_frame] that follows a step forward takes
    the seek path, which is where the keyframe recovery is. *)
Theorem get_frame_failure_then_step_seeks p c :
  video_capture p = Some c ->
  current_frame p - last_read_position p = 1 ->
  decoded (fst (read c)) = false ->
  current_frame p < total_frames p - 1 ->
  let p1 := snd (fst (get_frame p)) in
  last_read_position p1 = last_read_position p
  /\ last_valid_frame p1 = last_valid_frame p
  /\ fst (next_frame p1) = true
  /\ exists rest,
       snd (get_frame (snd (next_frame p1)))
       = CallSet (current_frame p + 1) :: CallRead :: rest.
Proof.
  intros Hc Hd Hdec Hlt p1.
  assert (Hp1 : p1 = set_video_capture (Some (snd (read c))) p).
  { unfold p1. rewrite (get_frame_sequential_outcome p c Hc Hd), Hdec.
    reflexivity. }
  rewrite Hp1. cbn [set_video_capture last_read_position last_valid_frame].
  split; [reflexivity|]. split; [reflexivity|].
  unfold next_frame. cbn [set_video_capture current_frame total_frames].
  replace (current_frame p <? total_frames p - 1) with true
    by (symmetry; apply Z.ltb_lt; exact Hlt).
  split; [reflexivity|]. cbn [snd].
  set (p2 := set_current_frame _ _).
  rewrite (get_frame_calls p2 (snd (read c)) eq_refl),
    (decode_seek p2 (snd (read c))) by (unfold p2; cbn; lia).
  apply seek_and_read_calls.
Qed.

End DecodeBounds.

(** ** Exceptions of [format_timestamp] *)

Section TimestampErrors.

#[local] Open Scope Q_scope.



End TimestampErrors.

(** ** The properties on the concrete capture *)

Section ExtraExamples.

Import Annotations.

#[local] Open Scope string_scope.

Lemma first_get_frame_after_load_witness :
  snd (get_frame (snd (fst (load_video "legacy.avi" Player.init))))
  = [CallRead].
Proof.
  apply (first_get_frame_after_load "legacy.avi" Player.init). reflexivity.
Defined.

Lemma play_reads_sequentially_witness :
  snd (play 4 shown_clip) = repeat CallRead 4
  /\ current_frame (fst (play 4 shown_clip)) = 4.
Proof.
  destruct (play_reads_sequentially 4 shown_clip
              {| opened := true; packets := clip; pos := 1; have_ref := true |})
    as (Hcalls & Hcur & _).
  - reflexivity.
  - reflexivity.
  - vm_compute. discriminate.
  - reflexivity.
  - split; [exact Hcalls | exact Hcur].
Defined.

Lemma get_frame_again_seeks_witness :
  (exists rest, snd (get_frame shown_clip) = CallSet 0 :: CallRead :: rest)
  /\ exists rest,
       snd (get_frame (snd (previous_frame (player_at clip 2 (Some 2%nat) 2))))
       = CallSet 1 :: CallRead :: rest.
Proof.
  split.
  - apply (get_frame_again_seeks shown_clip
             {| opened := true; packets := clip; pos := 1; have_ref := true |});
      reflexivity.
  - apply (get_frame_again_seeks (player_at clip 2 (Some 2%nat) 2) (stream clip));
      reflexivity.
Defined.

Lemma skip_frames_undo_witness :
  skip_frames (-4) (snd (skip_frames 100 (player_with 5 10 (PyFloat (fl 25)))))
  = (-4, player_with 5 10 (PyFloat (fl 25))).
Proof.
  apply (skip_frames_undo 100 (player_with 5 10 (PyFloat (fl 25)))).
  unfold frame_invariant. simpl. lia.
Defined.

Lemma steps_are_unit_skips_witness :
  previous_frame (snd (next_frame (player_with 5 10 (PyFloat (fl 25)))))
  = (true, player_with 5 10 (PyFloat (fl 25))).
Proof.
  apply (steps_are_unit_skips (player_with 5 10 (PyFloat (fl 25)))).
  - unfold frame_invariant. simpl. lia.
  - reflexivity.
Defined.

Lemma skip_time_direction_witness :
  current_frame
    (snd (skip_time (PyInt (-1)) (player_with 5 10 (PyFloat (fl 25)))))
  <= 5.
Proof.
  apply (skip_time_direction (PyInt (-1)) (player_with 5 10 (PyFloat (fl 25)))).
  - unfold frame_invariant. simpl. lia.
  - reflexivity.
  - simpl. lia.
Defined.

Lemma get_current_timestamp_guarded_witness :
  get_current_timestamp (player_with 5 10 (PyInt 0)) = DivOk (PyInt 0)
  /\ match get_current_timestamp (player_with 50 100 (PyFloat (fl 25))) with
     | DivOk (PyFloat f) => sign_of f = Some false
     | DivRaise e => e = OverflowError
     | _ => False
     end.
Proof.
  split.
  - apply (get_current_timestamp_guarded (player_with 5 10 (PyInt 0))).
    reflexivity.
  - apply (get_current_timestamp_guarded
             (player_with 50 100 (PyFloat (fl 25)))).
    + reflexivity.
    + simpl. lia.
Defined.

Lemma nav_scale_seek_in_range_witness :
  frame_invariant (nav_scale_seek 5000 640 (player_with 5 10 (PyFloat (fl 25))))
  /\ forall f,
       nav_scale_frame (-3) 640 (player_with 5 10 (PyFloat (fl 25))) = Ok f ->
       f = 0.
Proof.
  split.
  - apply (nav_scale_seek_in_range 5000 640
             (player_with 5 10 (PyFloat (fl 25)))).
    unfold frame_invariant. simpl. lia.
  - apply (nav_scale_seek_in_range (-3) 640
             (player_with 5 10 (PyFloat (fl 25)))).
    + unfold frame_invariant. simpl. lia.
    + lia.
    + lia.
    + simpl. lia.
Defined.

Lemma record_all_history_witness :
  List.NoDup (annotation_history (record_all ["x"; ""; "y"; "x"] init)).
Proof.
  apply (record_all_history ["x"; ""; "y"; "x"] init). constructor.
Defined.


Lemma save_all_appends_in_order_witness :
  default EmptyString
    (files (snd (save_all bob init (Some "/srv/v.mp4")
                   [("a", "b", "one"); ("c", "d", "two")] no_files))
     !! "/srv/v_annotations.txt")
  = annotation_line "/srv/v.mp4" "a" "b" "one"
    ++ annotation_line "/srv/v.mp4" "c" "d" "two".
Proof.
  destruct (save_all_appends_in_order bob init "/srv/v.mp4"
              [("a", "b", "one"); ("c", "d", "two")] no_files)
    as (Hfile & _).
  - discriminate.
  - reflexivity.
  - vm_compute in Hfile. vm_compute. exact Hfile.
Defined.


Lemma mark_start_then_end_witness :
  start_timestamp (annotation_mgr (snd (mark_start (app_at 0 None))))
  = Some (PyFloat (S754_zero false)).
Proof.
  apply (mark_start_then_end (app_at 0 None) eq_refl
           (PyFloat (S754_zero false)) eq_refl).
Defined.

Lemma get_frame_failure_then_step_seeks_witness :
  exists rest,
    snd (get_frame
           (snd (next_frame
                   (snd (fst (get_frame
                                (set_video_capture
                                   (Some {| opened := true; packets := damaged;
                                            pos := 1; have_ref := true |})
                                   (player_at [key 0; corrupt; dep 2; dep 3]
                                      1 (Some 0%nat) 0))))))))
    = CallSet 2 :: CallRead :: rest.
Proof.
  apply (get_frame_failure_then_step_seeks
           (set_video_capture
              (Some {| opened := true; packets := damaged;
                       pos := 1; have_ref := true |})
              (player_at [key 0; corrupt; dep 2; dep 3] 1 (Some 0%nat) 0))
           {| opened := true; packets := damaged; pos := 1; have_ref := true |}).
  - reflexivity.
  - reflexivity.
  - reflexivity.
  - simpl. lia.
Defined.


End ExtraExamples.
